(** * Soft red-list watermarking: the core of [watermark.py]

    A shallow embedding of the watermark logic of [watermark.py]
    ([register_model], [_is_green], [select_watermarked_token],
    [detect_watermark]), of the request schema that guards the
    [/register] endpoint and of the checker page of [website.py]
    ([check_text]), together with the properties of the specification
    that can be settled on it and further properties of the code.

    Modelling conventions.
    - A Python [str] is represented by the Rocq [string] of its UTF-8 bytes,
      so that [str.encode()] is the map from a string to its byte list and
      [+] on [str] is string concatenation.
    - [bytes] are lists of integers in [0, 256).
    - Python [float]s are idealised as real numbers ([R]): sums, products,
      quotients and square roots are exact, and rounding, infinities and
      NaN are outside the model.  The one operation of the code that
      raises when its result leaves the range of the floats, [math.exp],
      does so here too: [OverflowError] above [DBL_MAX], and [0.0] below
      half the smallest positive float.  The properties that say which
      weights a call computes and that it returns a token (C3, C4, C10,
      X12, X13) are therefore stated for inputs that keep the other
      operations within that range: a stored [delta] between 0 and 709,
      non-negative probabilities and a total mass of at most 1.  Python
      [int]s are [Z] or [nat] (lengths and counters).
    - [hmac.new(key, msg, hashlib.sha256).digest()] is HMAC (RFC 2104) over
      SHA-256 (FIPS 180-4), written out below and checked against the
      published test vectors.
    - [MODEL_KEYS], the module-level dictionary, and the position of the
      module-level random generator form the state that every operation
      threads; a raised exception is an [Err] result. *)

From Stdlib Require Import ZArith List String Ascii Reals Lra Lia Bool.
From stdpp Require Import base gmap strings.
Import ListNotations.

#[local] Open Scope Z_scope.

(** ** SHA-256 (hashlib.sha256) *)

Module SHA256.

Definition bytes := list Z.

Definition is_byte (b : Z) : Prop := 0 <= b < 256.

Definition wrap32 (x : Z) : Z := x mod 2 ^ 32.

Definition add32 (x y : Z) : Z := wrap32 (x + y).

Definition rotr (n x : Z) : Z :=
  Z.lor (Z.shiftr x n) (wrap32 (Z.shiftl x (32 - n))).

Definition not32 (x : Z) : Z := Z.lxor x 0xffffffff.

Definition Ch (x y z : Z) : Z :=
  Z.lxor (Z.land x y) (Z.land (not32 x) z).

Definition Maj (x y z : Z) : Z :=
  Z.lxor (Z.lxor (Z.land x y) (Z.land x z)) (Z.land y z).

Definition Sigma0 (x : Z) : Z :=
  Z.lxor (Z.lxor (rotr 2 x) (rotr 13 x)) (rotr 22 x).

Definition Sigma1 (x : Z) : Z :=
  Z.lxor (Z.lxor (rotr 6 x) (rotr 11 x)) (rotr 25 x).

Definition sigma0 (x : Z) : Z :=
  Z.lxor (Z.lxor (rotr 7 x) (rotr 18 x)) (Z.shiftr x 3).

Definition sigma1 (x : Z) : Z :=
  Z.lxor (Z.lxor (rotr 17 x) (rotr 19 x)) (Z.shiftr x 10).

(** The constants of FIPS 180-4 are fractional parts of roots of the first
    primes; they are computed here rather than tabulated. *)
Definition is_prime (p : nat) : bool :=
  forallb (fun d => negb (p mod d =? 0)%nat) (seq 2 (p - 2)).

Definition primes_below (n : nat) : list Z :=
  map Z.of_nat (List.filter is_prime (seq 2 (n - 2))).

(** The integer cube root, one bit at a time from bit [bits - 1] down. *)
Fixpoint icbrt_bits (bits : nat) (n r : Z) : Z :=
  match bits with
  | O => r
  | S b =>
      let r' := r + 2 ^ Z.of_nat b in
      icbrt_bits b n (if r' * r' * r' <=? n then r' else r)
  end.

Definition icbrt (n : Z) : Z := icbrt_bits 40 n 0.

(** First 32 bits of the fractional part of the cube root, respectively
    of the square root, of a prime. *)
Definition frac_cbrt32 (p : Z) : Z := wrap32 (icbrt (p * 2 ^ 96)).
Definition frac_sqrt32 (p : Z) : Z := wrap32 (Z.sqrt (p * 2 ^ 64)).

(** The sixty-four round constants: from the first sixty-four primes. *)
Definition K : list Z :=
  Eval vm_compute in map frac_cbrt32 (primes_below 312).

(** The eight working variables / chaining values. *)
Record regs : Type := Regs
  { ra : Z; rb : Z; rc : Z; rd : Z; re : Z; rf : Z; rg : Z; rh : Z }.

(** The initial hash value: from the first eight primes. *)
Definition H0 : regs :=
  Eval vm_compute in
    match map frac_sqrt32 (primes_below 20) with
    | [a; b; c; d; e; f; g; h] => Regs a b c d e f g h
    | _ => Regs 0 0 0 0 0 0 0 0
    end.

(** Big-endian packing of bytes into words and back. *)
Definition be_word (b3 b2 b1 b0 : Z) : Z :=
  Z.lor (Z.lor (Z.shiftl b3 24) (Z.shiftl b2 16))
        (Z.lor (Z.shiftl b1 8) b0).

Definition word_bytes (x : Z) : bytes :=
  [ Z.shiftr x 24 mod 256; Z.shiftr x 16 mod 256;
    Z.shiftr x 8 mod 256; x mod 256 ].

Fixpoint words_of (bs : bytes) : list Z :=
  match bs with
  | b3 :: b2 :: b1 :: b0 :: rest => be_word b3 b2 b1 b0 :: words_of rest
  | _ => []
  end.

(** Message schedule: sixteen block words extended to sixty-four. *)
Fixpoint extend (n : nat) (W : list Z) : list Z :=
  match n with
  | O => W
  | S n' =>
      let t := List.length W in
      let at_ k := nth (t - k) W 0 in
      extend n' (W ++ [add32 (add32 (sigma1 (at_ 2%nat)) (at_ 7%nat))
                             (add32 (sigma0 (at_ 15%nat)) (at_ 16%nat))])
  end.

Definition schedule (block : bytes) : list Z := extend 48 (words_of block).

Definition round (s : regs) (kw : Z * Z) : regs :=
  let '(k, w) := kw in
  let T1 := add32 (add32 (add32 (add32 (rh s) (Sigma1 (re s)))
                                (Ch (re s) (rf s) (rg s))) k) w in
  let T2 := add32 (Sigma0 (ra s)) (Maj (ra s) (rb s) (rc s)) in
  Regs (add32 T1 T2) (ra s) (rb s) (rc s)
       (add32 (rd s) T1) (re s) (rf s) (rg s).

Definition compress (s : regs) (block : bytes) : regs :=
  let s' := fold_left round (combine K (schedule block)) s in
  Regs (add32 (ra s) (ra s')) (add32 (rb s) (rb s'))
       (add32 (rc s) (rc s')) (add32 (rd s) (rd s'))
       (add32 (re s) (re s')) (add32 (rf s) (rf s'))
       (add32 (rg s) (rg s')) (add32 (rh s) (rh s')).

(** Padding: a 1 bit, zeros up to 56 mod 64, the bit length on 8 bytes. *)
Definition len64_bytes (n : Z) : bytes :=
  word_bytes (Z.shiftr n 32) ++ word_bytes n.

Definition pad (msg : bytes) : bytes :=
  let l := Z.of_nat (List.length msg) in
  let z := Z.to_nat ((55 - l) mod 64) in
  msg ++ [0x80] ++ repeat 0 z ++ len64_bytes (8 * l).

Fixpoint blocks (n : nat) (bs : bytes) : list bytes :=
  match n with
  | O => []
  | S n' => firstn 64 bs :: blocks n' (skipn 64 bs)
  end.

Definition digest_of (s : regs) : bytes :=
  word_bytes (ra s) ++ word_bytes (rb s) ++ word_bytes (rc s) ++
  word_bytes (rd s) ++ word_bytes (re s) ++ word_bytes (rf s) ++
  word_bytes (rg s) ++ word_bytes (rh s).

Definition sha256 (msg : bytes) : bytes :=
  let p := pad msg in
  digest_of (fold_left compress (blocks (List.length p / 64) p) H0).

End SHA256.

(** ** HMAC (hmac.new(key, msg, hashlib.sha256).digest()) *)

Module HMAC.
Import SHA256.

Definition block_size : nat := 64.

Definition xor_with (c : Z) (bs : bytes) : bytes := map (Z.lxor c) bs.

(** Keys longer than a block are hashed first; the key is then padded
    with zero bytes to a full block. *)
Definition block_key (key : bytes) : bytes :=
  let k := if (block_size <? List.length key)%nat then sha256 key else key in
  k ++ repeat 0 (block_size - List.length k).

Definition hmac_sha256 (key msg : bytes) : bytes :=
  let k := block_key key in
  sha256 (xor_with 0x5c k ++ sha256 (xor_with 0x36 k ++ msg)).

End HMAC.

(** ** Byte strings *)

(** [s.encode()] *)
Definition encode (s : string) : SHA256.bytes :=
  map (fun c => Z.of_N (N_of_ascii c)) (list_ascii_of_string s).

(** [int.from_bytes(bs, "big")] *)
Definition int_from_bytes_big (bs : SHA256.bytes) : Z :=
  fold_left (fun acc b => acc * 256 + b) bs 0.

(** ** Exceptions, results and the state of the module *)

Inductive exn : Type :=
| KeyError (key : string)
| IndexError
| ValueError
| ZeroDivisionError
| OverflowError
| ValidationError (fields : list string).

(** Python's built-in hierarchy: [ZeroDivisionError] and [OverflowError]
    derive from [ArithmeticError]; [KeyError] and [IndexError] from
    [LookupError]. *)
Definition is_ArithmeticError (e : exn) : bool :=
  match e with ZeroDivisionError | OverflowError => true | _ => false end.

Definition is_LookupError (e : exn) : bool :=
  match e with KeyError _ | IndexError => true | _ => false end.

Inductive result (A : Type) : Type :=
| Ok (a : A)
| Err (e : exn).
Arguments Ok {A} a.
Arguments Err {A} e.

Definition rbind {A B} (r : result A) (k : A -> result B) : result B :=
  match r with Ok a => k a | Err e => Err e end.

(** One entry of [MODEL_KEYS]: [{vocab, secret, gamma, delta}]. *)
Record model : Type := Model
  { vocab : list string;
    secret : SHA256.bytes;
    gamma : R;
    delta : R }.

(** The module state: the registry and the outputs that the module-level
    generator behind [random.random()] is still to produce. *)
Record world : Type := World
  { MODEL_KEYS : gmap string model;
    random_seq : nat -> R }.

Definition M (A : Type) : Type := world -> result A * world.

Definition ret {A} (a : A) : M A := fun w => (Ok a, w).
Definition raise {A} (e : exn) : M A := fun w => (Err e, w).
Definition lift {A} (r : result A) : M A := fun w => (r, w).
Definition bind {A B} (m : M A) (k : A -> M B) : M B :=
  fun w => match m w with
           | (Ok a, w') => k a w'
           | (Err e, w') => (Err e, w')
           end.

Declare Scope py_scope.
Delimit Scope py_scope with py.
Notation "x <- m ;; k" := (bind m (fun x => k))
  (at level 100, m at next level, right associativity) : py_scope.
Notation "x <~ r ;; k" := (rbind r (fun x => k))
  (at level 100, r at next level, right associativity) : py_scope.

#[local] Open Scope py_scope.
#[local] Open Scope R_scope.

(** [MODEL_KEYS[model_id]] *)
Definition lookup_model (model_id : string) : M model :=
  fun w => match MODEL_KEYS w !! model_id with
           | Some m => (Ok m, w)
           | None => (Err (KeyError model_id), w)
           end.

(** [random.random()]: the next output of the generator is consumed. *)
Definition consume_random (w : world) : world :=
  World (MODEL_KEYS w) (fun n => random_seq w (S n)).

Definition random : M R :=
  fun w => (Ok (random_seq w 0%nat), consume_random w).

(** ** Dictionaries with insertion order (dict[str, float]) *)

Definition dict (V : Type) : Type := list (string * V).

Definition keys {V} (d : dict V) : list string := map fst d.
Definition values {V} (d : dict V) : list V := map snd d.

Fixpoint dict_get {V} (k : string) (d : dict V) : option V :=
  match d with
  | [] => None
  | (k', v) :: d' => if String.eqb k k' then Some v else dict_get k d'
  end.

(** [d[k] = v]: an existing key keeps its position, a new one goes last. *)
Fixpoint dict_set {V} (k : string) (v : V) (d : dict V) : dict V :=
  match d with
  | [] => [(k, v)]
  | (k', v') :: d' =>
      if String.eqb k k' then (k, v) :: d' else (k', v') :: dict_set k v d'
  end.

(** A list of items is the content of a dictionary when its keys differ. *)
Definition is_dict {V} (d : dict V) : Prop := NoDup (keys d).

(** ** Arithmetic that can raise *)

(** [x / y] on floats *)
Definition py_div (x y : R) : result R :=
  if Req_dec_T y 0 then Err ZeroDivisionError else Ok (x / y).

(** [math.sqrt(x)] *)
Definition math_sqrt (x : R) : result R :=
  if Rlt_dec x 0 then Err ValueError else Ok (sqrt x).

(** [sys.float_info.max], the largest finite float: [(2^53 - 1) * 2^971]. *)
Definition DBL_MAX : R := IZR (2 ^ 1024 - 2 ^ 971).

(** [math.exp(x)]: "math range error" when the result is beyond the largest
    float, and [0.0] (silently) when it is at most half the smallest
    positive float, [2^-1074]. *)
Definition math_exp (x : R) : result R :=
  if Rlt_dec DBL_MAX (exp x) then Err OverflowError
  else if Rle_dec (exp x) (/ 2 ^ 1075) then Ok 0
  else Ok (exp x).

(** ** The watermark logic *)

Definition register_model (model_id : string) (vocab : list string)
    (secret : string) (gamma delta : R) : M unit :=
  fun w =>
    (Ok tt,
     World (<[model_id := Model vocab (encode secret) gamma delta]>
              (MODEL_KEYS w))
           (random_seq w)).

Definition _is_green (secret : SHA256.bytes) (prev_token token : string)
    (gamma : R) : bool :=
  let data := encode (prev_token ++ token) in
  let digest := HMAC.hmac_sha256 secret data in
  let u := IZR (int_from_bytes_big (firstn 8 digest)) / 2 ^ 64 in
  if Rlt_dec u gamma then true else false.

(** [itertools.accumulate(weights)] *)
Fixpoint accumulate_from (acc : R) (ws : list R) : list R :=
  match ws with
  | [] => []
  | x :: ws' => (acc + x) :: accumulate_from (acc + x) ws'
  end.

Definition accumulate (ws : list R) : list R :=
  match ws with
  | [] => []
  | x :: ws' => x :: accumulate_from x ws'
  end.

(** [bisect.bisect_right(a, x, lo, hi)]: the loop
    [while lo < hi: mid = (lo + hi) // 2; ...], unrolled [fuel] times. *)
Fixpoint bisect_loop (fuel : nat) (a : list R) (x : R) (lo hi : nat) : nat :=
  match fuel with
  | O => lo
  | S fuel' =>
      if (lo <? hi)%nat then
        let mid := ((lo + hi) / 2)%nat in
        if Rlt_dec x (nth mid a 0) then bisect_loop fuel' a x lo mid
        else bisect_loop fuel' a x (mid + 1) hi
      else lo
  end.

Definition bisect (a : list R) (x : R) (lo hi : nat) : nat :=
  bisect_loop (hi - lo) a x lo hi.

(** [random.choices(population, weights, k=1)] *)
Definition random_choices (population : list string) (weights : list R)
    : M (list string) :=
  let n := List.length population in
  let cum_weights := accumulate weights in
  if negb (List.length cum_weights =? n)%nat then raise ValueError else
  match last (cum_weights : list R) with
  | None => raise IndexError
  | Some c =>
      let total := c + 0 in
      if Rle_dec total 0 then raise ValueError else
      r <- random ;;
      match population !! bisect cum_weights (r * total) 0 (n - 1) with
      | Some tok => ret [tok]
      | None => raise IndexError
      end
  end.

(** [random.choices(tokens, weights, k=1)[0]] *)
Definition choose_one (tokens : list string) (weights : list R) : M string :=
  picked <- random_choices tokens weights ;;
  match picked !! 0%nat with
  | Some tok => ret tok
  | None => raise IndexError
  end.

(** The first loop of [select_watermarked_token]: the boosted weights and
    their running total. *)
Definition boost_step (secret : SHA256.bytes) (prev_token : string)
    (gamma alpha : R) (st : dict R * R) (item : string * R) : dict R * R :=
  let '(boosted, total) := st in
  let '(tok, p) := item in
  let w := if _is_green secret prev_token tok gamma then p * alpha else p in
  (dict_set tok w boosted, total + w).

(** The second loop: [for tok in boosted: boosted[tok] /= total]. *)
Fixpoint normalize_loop (ks : list string) (boosted : dict R) (total : R)
    : result (dict R) :=
  match ks with
  | [] => Ok boosted
  | tok :: ks' =>
      match dict_get tok boosted with
      | None => Err (KeyError tok)
      | Some v =>
          q <~ py_div v total ;;
          normalize_loop ks' (dict_set tok q boosted) total
      end
  end.

(** [tokens, weights = zip( *boosted.items() )]: unpacking fails on an
    empty dictionary, where [zip] yields nothing. *)
Definition unzip_items (d : dict R) : result (list string * list R) :=
  match d with
  | [] => Err ValueError
  | _ :: _ => Ok (keys d, values d)
  end.

(** [select_watermarked_token] up to its last line: the lookup of the
    model, [alpha = math.exp(delta)], the two loops and the unpacking.
    The result is the pair [(tokens, weights)] that the last line hands to
    [random.choices]. *)
Definition sampling_weights (model_id : string)
    (distribution : dict R) (prev_token : string)
    : M (list string * list R) :=
  model <- lookup_model model_id ;;
  let secret := secret model in
  let gamma := gamma model in
  let delta := delta model in
  alpha <- lift (math_exp delta) ;;
  let '(boosted, total) :=
    fold_left (boost_step secret prev_token gamma alpha) distribution ([], 0) in
  boosted <- lift (normalize_loop (keys boosted) boosted total) ;;
  lift (unzip_items boosted).

Definition select_watermarked_token (model_id : string)
    (distribution : dict R) (prev_token : string) : M string :=
  tw <- sampling_weights model_id distribution prev_token ;;
  let '(tokens, weights) := tw in
  choose_one tokens weights.

(** The counting loop of [detect_watermark]:
    [for i, tok in enumerate(tokens)], entered at index [i] with [rest]
    still to visit. *)
Fixpoint count_loop (secret : SHA256.bytes) (gamma : R) (tokens : list string)
    (i : nat) (rest : list string) (count : nat) : nat :=
  match rest with
  | [] => count
  | tok :: rest' =>
      let prev := if (0 <? i)%nat then nth (i - 1) tokens EmptyString
                  else EmptyString in
      count_loop secret gamma tokens (S i) rest'
        (if _is_green secret prev tok gamma then S count else count)
  end.

Definition detect_watermark (model_id : string) (tokens : list string) : M R :=
  model <- lookup_model model_id ;;
  let secret := secret model in
  let gamma := gamma model in
  let count := count_loop secret gamma tokens 0 tokens 0 in
  let T := List.length tokens in
  if (T =? 0)%nat then ret 0 else
  s <- lift (math_sqrt (INR T * gamma * (1 - gamma))) ;;
  lift (py_div (INR count - gamma * INR T) s).

(** ** The [/register] endpoint and its request schema *)

Record RegisterRequest : Type := MkRegisterRequest
  { req_model_id : string;
    req_vocab : list string;
    req_secret : string;
    req_gamma : R;
    req_delta : R }.

(** Construction of a [RegisterRequest] from a request body: absent fields
    take their defaults, and the field constraints
    [gamma: Field(0.5, ge=0.0, le=1.0)] and [delta: Field(2.0, ge=0.0)] are
    checked; the error names every field that violates its constraint. *)
Definition parse_RegisterRequest (model_id : string) (vocab : list string)
    (secret : string) (gamma delta : option R) : result RegisterRequest :=
  let gamma := match gamma with Some g => g | None => 1 / 2 end in
  let delta := match delta with Some d => d | None => 2 end in
  let bad_gamma :=
    if Rle_dec 0 gamma then
      if Rle_dec gamma 1 then [] else ["gamma"%string]
    else ["gamma"%string] in
  let bad_delta := if Rle_dec 0 delta then [] else ["delta"%string] in
  match (bad_gamma ++ bad_delta)%list with
  | [] => Ok (MkRegisterRequest model_id vocab secret gamma delta)
  | fields => Err (ValidationError fields)
  end.

Definition register (req : RegisterRequest) : M string :=
  _ <- register_model (req_model_id req) (req_vocab req) (req_secret req)
         (req_gamma req) (req_delta req) ;;
  ret "registered"%string.

(** A POST to [/register]: the body is validated, then the handler runs. *)
Definition post_register (model_id : string) (vocab : list string)
    (secret : string) (gamma delta : option R) : M string :=
  req <- lift (parse_RegisterRequest model_id vocab secret gamma delta) ;;
  register req.

(** The default of the field [prev_token] of [WatermarkRequest]: the empty
    string. *)
Definition default_prev_token : string := EmptyString.

(** ** Quantities the properties are stated with *)

(** The number [u] that [_is_green] compares with [gamma]: the first eight
    bytes of the HMAC of the two encoded tokens, over [2^64]. *)
Definition green_u (secret : SHA256.bytes) (prev_token token : string) : R :=
  IZR (int_from_bytes_big
         (firstn 8 (HMAC.hmac_sha256 secret
                      (encode prev_token ++ encode token)%list))) / 2 ^ 64.

Definition Rsum (l : list R) : R := fold_right Rplus 0 l.

(** The total probability mass of a distribution. *)
Definition mass (distribution : dict R) : R := Rsum (values distribution).

Section Weights.
Variables (sec : SHA256.bytes) (prev_token : string) (gam alpha : R).

(** The weight given to one item of the distribution. *)
Definition weight (item : string * R) : R :=
  if _is_green sec prev_token (fst item) gam
  then snd item * alpha else snd item.

Definition boosted_items (distribution : dict R) : dict R :=
  map (fun item => (fst item, weight item)) distribution.

Definition boosted_total (distribution : dict R) : R :=
  Rsum (map weight distribution).
End Weights.

Definition scale_items (total : R) (d : dict R) : dict R :=
  map (fun item => (fst item, snd item / total)) d.

(** The weights handed to [random.choices]: every boosted weight divided
    by the total of the boosted weights. *)
Definition normalized_weights (m : model) (prev_token : string)
    (distribution : dict R) : list R :=
  let weight := weight (secret m) prev_token (gamma m) (exp (delta m)) in
  map (fun item => weight item / Rsum (map weight distribution)) distribution.

(** The context of position [i]: the token before it, the empty string at
    the first position. *)
Definition context_at (tokens : list string) (i : nat) : string :=
  match i with
  | O => EmptyString
  | S j => nth j tokens EmptyString
  end.

(** The number of green positions, as the specification counts them: the
    positions [i] in [0 .. T-1] whose token is green in the context of
    position [i]. *)
Definition count_green (sec : SHA256.bytes) (g : R) (tokens : list string)
    : nat :=
  List.length
    (List.filter
       (fun i => _is_green sec (context_at tokens i) (nth i tokens EmptyString) g)
       (seq 0 (List.length tokens))).

(** ** The scenario of the specification and other concrete states *)

Definition empty_world : world := World ∅ (fun _ => 0).

(** Model [m] registered with secret [k1], [gamma = 0.5], [delta = 2.0]. *)
Definition scenario_world : world :=
  snd (register_model "m" ["a"; "b"]%string "k1" (1 / 2) 2 empty_world).

Definition scenario_model : model :=
  Model ["a"; "b"]%string (encode "k1") (1 / 2) 2.

Definition scenario_distribution : dict R :=
  [("a"%string, 1 / 2); ("b"%string, 1 / 2)].

(** The scenario with a generator whose every output is [r]. *)
Definition scenario_world_at (r : R) : world :=
  World (MODEL_KEYS scenario_world) (fun _ => r).

(** The same model registered without bias ([delta = 0]). *)
Definition unbiased_model : model :=
  Model ["a"; "b"]%string (encode "k1") (1 / 2) 0.

Definition unbiased_world : world :=
  snd (register_model "m" ["a"; "b"]%string "k1" (1 / 2) 0 empty_world).

(** The same model with every token green ([gamma = 1]). *)
Definition all_green_model : model :=
  Model ["a"; "b"]%string (encode "k1") 1 2.

Definition all_green_world : world :=
  snd (register_model "m" ["a"; "b"]%string "k1" 1 2 empty_world).

(** ** Further quantities: registry invariant, colour masses *)

(** A configuration that satisfies the constraints of the request schema. *)
Definition valid_config (m : model) : Prop :=
  0 <= gamma m <= 1 /\ 0 <= delta m.

Definition valid_registry (w : world) : Prop :=
  forall model_id m, MODEL_KEYS w !! model_id = Some m -> valid_config m.

(** The value [detect_watermark] computes for a model and a non-empty
    sequence: the two partial operations of its last line. *)
Definition z_score (m : model) (tokens : list string) : result R :=
  s <~ math_sqrt (INR (List.length tokens) * gamma m * (1 - gamma m)) ;;
  py_div (INR (count_green (secret m) (gamma m) tokens)
          - gamma m * INR (List.length tokens)) s.



(** ** The checker page ([website.py]) *)

(** *** Whitespace, [str.strip()] and [str.split()]

    The characters for which [str.isspace()] holds, each by its UTF-8
    encoding: U+0009..U+000D, U+001C..U+0020, U+0085, U+00A0, U+1680,
    U+2000..U+200A, U+2028, U+2029, U+202F, U+205F and U+3000. *)

Definition str_of_codes (codes : list nat) : string :=
  string_of_list_ascii (map ascii_of_nat codes).

Definition whitespace : list string :=
  map str_of_codes
    (map (fun b => [b]) (seq 9 5 ++ seq 28 5)
     ++ [[194; 133]; [194; 160]; [225; 154; 128]]
     ++ map (fun b => [226; 128; b]) (seq 128 11)
     ++ [[226; 128; 168]; [226; 128; 169]; [226; 128; 175];
         [226; 129; 159]; [227; 128; 128]])%list%nat.

(** The number of bytes of the whitespace character that [s] starts with,
    0 when it starts with none. *)
Definition ws_len (s : string) : nat :=
  match find (fun p => String.prefix p s) whitespace with
  | Some p => String.length p
  | None => O
  end.

(** The scans below go through the bytes of a string; [skip] counts the
    bytes of a whitespace character that are still to be passed. *)
Fixpoint all_ws_from (skip : nat) (s : string) : bool :=
  match s with
  | EmptyString => true
  | String _ s' =>
      match skip with
      | S k => all_ws_from k s'
      | O => match ws_len s with
             | O => false
             | S k => all_ws_from k s'
             end
      end
  end.

(** The string consists of whitespace only (the empty string included). *)
Definition is_blank (s : string) : bool := all_ws_from 0 s.

Fixpoint lstrip_from (skip : nat) (s : string) : string :=
  match s with
  | EmptyString => EmptyString
  | String _ s' =>
      match skip with
      | S k => lstrip_from k s'
      | O => match ws_len s with
             | O => s
             | S k => lstrip_from k s'
             end
      end
  end.

Fixpoint rstrip (s : string) : string :=
  match s with
  | EmptyString => EmptyString
  | String c s' => if is_blank s then EmptyString else String c (rstrip s')
  end.

(** [s.strip()] *)
Definition str_strip (s : string) : string := rstrip (lstrip_from 0 s).

(** A finished word is emitted unless it is empty. *)
Definition flush (cur : string) (rest : list string) : list string :=
  match cur with
  | EmptyString => rest
  | String _ _ => cur :: rest
  end.

Fixpoint split_from (skip : nat) (cur : string) (s : string) : list string :=
  match s with
  | EmptyString => flush cur []
  | String c s' =>
      match skip with
      | S k => split_from k cur s'
      | O => match ws_len s with
             | O => split_from 0 (cur ++ String c EmptyString) s'
             | S k => flush cur (split_from k EmptyString s')
             end
      end
  end.

(** [s.split()] *)
Definition str_split (s : string) : list string :=
  split_from 0 EmptyString s.

(** The bytes that start a whitespace character, and the strings whose
    bytes all satisfy a test. *)
Definition is_ws_start (c : ascii) : bool :=
  existsb (fun p => match p with
                    | String x _ => Ascii.eqb x c
                    | EmptyString => false
                    end) whitespace.

Fixpoint all_chars (test : ascii -> bool) (s : string) : bool :=
  match s with
  | EmptyString => true
  | String c s' => test c && all_chars test s'
  end.

(** The first [skip] bytes of [s] start no whitespace character. *)
Fixpoint skipped_ok (skip : nat) (s : string) : Prop :=
  match skip, s with
  | S k, String c s' => is_ws_start c = false /\ skipped_ok k s'
  | _, _ => True
  end.

(** *** The result page *)

Definition dquote : string := String (ascii_of_nat 34) EmptyString.
Definition newline : string := String (ascii_of_nat 10) EmptyString.

Definition unlines (ls : list string) : string :=
  String.concat EmptyString (map (fun l => l ++ newline)%string ls).

(** [html_result_template.format(verdict=verdict, rows=rows)]: the text of
    the template around its two fields. *)
Definition html_result (verdict rows : string) : string :=
  (newline ++
   unlines ["<!DOCTYPE html>";
            "<html>";
            "  <head>";
            "    <title>Detection Results</title>";
            "  </head>";
            "  <body>";
            "    <h1>Detection Results</h1>"] ++
   "    <div>" ++ verdict ++ "</div>" ++ newline ++
   unlines ["    <table border=" ++ dquote ++ "1" ++ dquote ++
              " cellpadding=" ++ dquote ++ "5" ++ dquote ++
              " cellspacing=" ++ dquote ++ "0" ++ dquote ++ ">";
            "      <tr><th>Model ID</th><th>Z-Score</th><th>Flagged?</th></tr>"] ++
   "      " ++ rows ++ newline ++
   unlines ["    </table>";
            "    <p><a href=" ++ dquote ++ "/" ++ dquote ++
              ">Check another text</a></p>";
            "  </body>";
            "</html>"])%string.

Definition verdict_flagged : string :=
  "<h2 style='color:red;'>AI-generated text detected!</h2>".

Definition verdict_clean : string :=
  "<h2>No watermark detected; likely human-written.</h2>".

Section Website.

(** The formatting of a float with two decimals, [f"{z:.2f}"]. *)
Variable format_2f : R -> string.

(** One row of the table. *)
Definition result_row (model_id : string) (z : R) (flagged : bool) : string :=
  ("<tr><td>" ++ model_id ++ "</td><td>" ++ format_2f z ++ "</td><td>" ++
   (if flagged then "Yes" else "No") ++ "</td></tr>")%string.

(** The loop of [check_text], over the identifiers still to visit. *)
Fixpoint check_loop (model_ids : list string) (tokens : list string)
    (rows : list string) (any_flagged : bool) : M (list string * bool) :=
  match model_ids with
  | [] => ret (rows, any_flagged)
  | model_id :: model_ids' =>
      z <- detect_watermark model_id tokens ;;
      let flagged := if Rlt_dec 4 z then true else false in
      let any_flagged := any_flagged || flagged in
      check_loop model_ids' tokens
        (rows ++ [result_row model_id z flagged]) any_flagged
  end.

(** [check_text(text)].  [model_ids] is what iterating over [MODEL_KEYS]
    yields: the registered identifiers in the order of their first
    registration, which the finite map of the state does not record. *)
Definition check_text (model_ids : list string) (text : string) : M string :=
  let tokens := str_split (str_strip text) in
  looped <- check_loop model_ids tokens [] false ;;
  let '(rows, any_flagged) := looped in
  let verdict := if any_flagged then verdict_flagged else verdict_clean in
  ret (html_result verdict (String.concat EmptyString rows)).

End Website.

(** [model_ids] enumerates the registry: every registered identifier once,
    and nothing else. *)
Definition iterates_registry (model_ids : list string) (w : world) : Prop :=
  NoDup model_ids /\
  forall model_id, model_id ∈ model_ids <-> is_Some (MODEL_KEYS w !! model_id).

(** The score that [check_text] shows for a model when detection succeeds. *)
Definition score (w : world) (tokens : list string) (model_id : string) : R :=
  match fst (detect_watermark model_id tokens w) with
  | Ok z => z
  | Err _ => 0
  end.

(** [z > 4.0] *)
Definition above_threshold (z : R) : bool :=
  if Rlt_dec 4 z then true else false.

(** A word contains a whitespace character. *)
Definition contains_whitespace (tok : string) : Prop :=
  exists a p b, In p whitespace /\ tok = (a ++ p ++ b)%string.

(** ** Further concrete states *)

(** A model registered directly with [gamma = 1.5] and [delta = -1]. *)
Definition out_of_range_model : model := Model [] (encode "k1") (3 / 2) (-1).

Definition out_of_range_world : world :=
  snd (register_model "m" [] "k1" (3 / 2) (-1) empty_world).

(** A distribution with a red token ([a]) and a green one ([c]) after the
    empty context. *)
Definition mixed_distribution : dict R :=
  [("a"%string, 1 / 2); ("c"%string, 1 / 2)].


(** Two tokens that are green after the empty context, total mass 1/2. *)
Definition green_distribution : dict R :=
  [("c"%string, 1 / 8); ("d"%string, 3 / 8)].

(** Model [m] registered through the endpoint with [delta = 1000], a value
    that the request schema accepts. *)
Definition overflow_model : model :=
  Model ["a"; "b"]%string (encode "k1") (1 / 2) 1000.

Definition overflow_world : world :=
  snd (post_register "m" ["a"; "b"]%string "k1" (Some (1 / 2)) (Some 1000)
         empty_world).

(** Model [m] registered directly with [delta = -1000]. *)
Definition underflow_model : model := Model [] (encode "k1") (1 / 2) (-1000).

Definition underflow_world : world :=
  snd (register_model "m" [] "k1" (1 / 2) (-1000) empty_world).

(** A stand-in for the two-decimal formatting. *)
Definition constant_format (z : R) : string := "0.00".

(** The scenario registered without its vocabulary. *)
Definition no_vocab_model : model := Model [] (encode "k1") (1 / 2) 2.

Definition no_vocab_world : world :=
  snd (register_model "m" [] "k1" (1 / 2) 2 empty_world).

(** * Properties *)

(** ** Published test vectors *)

(** The computed constants agree with the published tables at their ends. *)
Example K_ends :
  List.length SHA256.K = 64%nat /\
  nth 0 SHA256.K 0%Z = 0x428a2f98%Z /\ nth 63 SHA256.K 0%Z = 0xc67178f2%Z.
Proof. repeat split. Qed.

Example H0_ends :
  SHA256.ra SHA256.H0 = 0x6a09e667%Z /\ SHA256.rh SHA256.H0 = 0x5be0cd19%Z.
Proof. split; reflexivity. Qed.

(** FIPS 180-4 / NIST examples for SHA-256. *)
Example sha256_abc :
  int_from_bytes_big (SHA256.sha256 (encode "abc")) =
  0xba7816bf8f01cfea414140de5dae2223b00361a396177a9cb410ff61f20015ad%Z.
Proof. vm_compute. reflexivity. Qed.

Example sha256_empty :
  int_from_bytes_big (SHA256.sha256 []) =
  0xe3b0c44298fc1c149afbf4c8996fb92427ae41e4649b934ca495991b7852b855%Z.
Proof. vm_compute. reflexivity. Qed.

Example sha256_two_blocks :
  int_from_bytes_big (SHA256.sha256
         (encode "abcdbcdecdefdefgefghfghighijhijkijkljklmklmnlmnomnopnopq")) =
  0x248d6a61d20638b8e5c026930c3e6039a33ce45964ff2167f6ecedd419db06c1%Z.
Proof. vm_compute. reflexivity. Qed.

(** RFC 4231, test case 2. *)
Example hmac_rfc4231_2 :
  int_from_bytes_big (HMAC.hmac_sha256 (encode "Jefe") (encode "what do ya want for nothing?")) =
  0x5bdcc146bf60754e6a042426089575c75a003f089d2739839dec58b964ec3843%Z.
Proof. vm_compute. reflexivity. Qed.

(** RFC 4231, test case 6: a key longer than the block size is hashed. *)
Example hmac_rfc4231_6 :
  int_from_bytes_big (HMAC.hmac_sha256 (repeat 0xaa%Z 131)
         (encode "Test Using Larger Than Block-Size Key - Hash Key First")) =
  0x60e431591ee0b67f0d8a26aacbf5b77f8e0bc6213728c5140546040f0ee37f54%Z.
Proof. vm_compute. reflexivity. Qed.


(** ** Facts about digests and byte strings *)

Section Bytes.
Import SHA256.
#[local] Open Scope Z_scope.

Lemma word_bytes_is_byte (x : Z) : Forall is_byte (word_bytes x).
Proof.
  unfold word_bytes, is_byte.
  repeat constructor; try (apply Z.mod_pos_bound; lia);
    apply Z.mod_pos_bound; lia.
Qed.

Lemma digest_of_is_byte (s : regs) : Forall is_byte (digest_of s).
Proof.
  unfold digest_of.
  repeat (apply Forall_app; split); apply word_bytes_is_byte.
Qed.

Lemma digest_of_length (s : regs) : List.length (digest_of s) = 32%nat.
Proof. reflexivity. Qed.

Lemma sha256_is_byte (msg : bytes) : Forall is_byte (sha256 msg).
Proof. apply digest_of_is_byte. Qed.

Lemma sha256_length (msg : bytes) : List.length (sha256 msg) = 32%nat.
Proof. apply digest_of_length. Qed.

Lemma hmac_sha256_is_byte (key msg : bytes) :
  Forall is_byte (HMAC.hmac_sha256 key msg).
Proof. apply sha256_is_byte. Qed.

Lemma hmac_sha256_length (key msg : bytes) :
  List.length (HMAC.hmac_sha256 key msg) = 32%nat.
Proof. apply sha256_length. Qed.

Lemma from_bytes_acc (bs : bytes) (acc : Z) :
  Forall is_byte bs -> 0 <= acc ->
  let r := fold_left (fun a b => a * 256 + b) bs acc in
  acc * 256 ^ Z.of_nat (List.length bs) <= r
  < (acc + 1) * 256 ^ Z.of_nat (List.length bs).
Proof.
  intros Hb. revert acc.
  induction Hb as [| b bs Hx Hbs IH]; intros acc Hacc; cbn [fold_left List.length].
  - cbn. lia.
  - specialize (IH (acc * 256 + b)). unfold is_byte in Hx.
    cbv zeta in IH. rewrite Nat2Z.inj_succ, Z.pow_succ_r by lia.
    assert (0 < 256 ^ Z.of_nat (List.length bs)) by (apply Z.pow_pos_nonneg; lia).
    specialize (IH ltac:(lia)). nia.
Qed.

Lemma int_from_bytes_big_bound (bs : bytes) :
  Forall is_byte bs ->
  0 <= int_from_bytes_big bs < 256 ^ Z.of_nat (List.length bs).
Proof.
  intros Hb. pose proof (from_bytes_acc bs 0 Hb ltac:(lia)) as H.
  cbv zeta in H. unfold int_from_bytes_big. lia.
Qed.

(** The 64-bit prefix of a digest, read big-endian, is below [2^64]. *)
Lemma digest_prefix_bound (key msg : bytes) :
  0 <= int_from_bytes_big (firstn 8 (HMAC.hmac_sha256 key msg)) < 2 ^ 64.
Proof.
  pose proof (int_from_bytes_big_bound (firstn 8 (HMAC.hmac_sha256 key msg))) as H.
  rewrite length_firstn, hmac_sha256_length in H.
  change (Z.of_nat (Nat.min 8 32)) with 8 in H.
  change (256 ^ 8) with (2 ^ 64) in H.
  apply H. apply Forall_take, hmac_sha256_is_byte.
Qed.

Lemma list_ascii_of_string_app (a b : string) :
  list_ascii_of_string (a ++ b) =
  (list_ascii_of_string a ++ list_ascii_of_string b)%list.
Proof.
  induction a as [| c a IH]; simpl; [reflexivity | f_equal; exact IH].
Qed.

(** Encoding a concatenation is concatenating the encodings. *)
Lemma encode_app (a b : string) :
  encode (a ++ b) = (encode a ++ encode b)%list.
Proof. unfold encode. now rewrite list_ascii_of_string_app, map_app. Qed.

End Bytes.

(** ** The green-list oracle *)

Lemma green_u_range secret prev_token token :
  0 <= green_u secret prev_token token < 1.
Proof.
  unfold green_u.
  pose proof (digest_prefix_bound secret (encode prev_token ++ encode token)%list)
    as [Hlo Hhi].
  apply IZR_le in Hlo. apply IZR_lt in Hhi.
  change (2 ^ 64)%Z with (2 ^ Z.of_nat 64)%Z in Hhi.
  rewrite <- pow_IZR in Hhi.
  assert (0 < 2 ^ 64) by (apply pow_lt; lra).
  split.
  - apply Rmult_le_pos; [exact Hlo | left; now apply Rinv_0_lt_compat].
  - apply (Rmult_lt_reg_r (2 ^ 64)); [assumption |].
    unfold Rdiv. rewrite Rmult_assoc, Rinv_l by lra. lra.
Qed.

Lemma is_green_iff secret prev_token token gamma :
  _is_green secret prev_token token gamma = true <->
  green_u secret prev_token token < gamma.
Proof.
  unfold _is_green, green_u. rewrite encode_app.
  destruct (Rlt_dec _ gamma); split; intros; try easy.
Qed.


(** ** Dictionaries *)

Section Dict.
Context {V : Type}.
Implicit Types (d : dict V) (k : string) (v : V).

Lemma dict_set_fresh k v d :
  k ∉ keys d -> dict_set k v d = (d ++ [(k, v)])%list.
Proof.
  induction d as [| [k' v'] d IH]; intros Hk; simpl; [reflexivity |].
  simpl in Hk. apply not_elem_of_cons in Hk as [Hne Hk].
  destruct (String.eqb_spec k k') as [-> | _]; [congruence |].
  now rewrite IH.
Qed.

Lemma dict_get_middle k v (d1 d2 : dict V) :
  k ∉ keys d1 -> dict_get k (d1 ++ (k, v) :: d2)%list = Some v.
Proof.
  induction d1 as [| [k' v'] d1 IH]; intros Hk; simpl.
  - now rewrite String.eqb_refl.
  - simpl in Hk. apply not_elem_of_cons in Hk as [Hne Hk].
    destruct (String.eqb_spec k k') as [-> | _]; [congruence | auto].
Qed.

Lemma dict_set_middle k v v' (d1 d2 : dict V) :
  k ∉ keys d1 ->
  dict_set k v' (d1 ++ (k, v) :: d2)%list = (d1 ++ (k, v') :: d2)%list.
Proof.
  induction d1 as [| [k0 v0] d1 IH]; intros Hk; simpl.
  - now rewrite String.eqb_refl.
  - simpl in Hk. apply not_elem_of_cons in Hk as [Hne Hk].
    destruct (String.eqb_spec k k0) as [-> | _]; [congruence |].
    now rewrite IH.
Qed.

Lemma keys_app (d1 d2 : dict V) : keys (d1 ++ d2)%list = (keys d1 ++ keys d2)%list.
Proof. apply map_app. Qed.

End Dict.

(** ** Sums of weights *)

Lemma Rsum_scale (c : R) (l : list R) :
  Rsum (map (fun x => x / c) l) = Rsum l / c.
Proof.
  induction l as [| x l IH]; simpl; [unfold Rdiv; lra |].
  rewrite IH. unfold Rdiv. lra.
Qed.

Lemma Rsum_nonneg (l : list R) : Forall (fun x => 0 <= x) l -> 0 <= Rsum l.
Proof. induction 1; simpl; lra. Qed.

Lemma Rsum_zero (l : list R) : Forall (fun x => x = 0) l -> Rsum l = 0.
Proof. induction 1; simpl; lra. Qed.

(** ** The two loops of the sampler *)

Section Loops.
Variables (sec : SHA256.bytes) (prev_token : string) (gam alpha : R).

#[local] Abbreviation wt := (weight sec prev_token gam alpha).
#[local] Abbreviation boosted := (boosted_items sec prev_token gam alpha).
#[local] Abbreviation total := (boosted_total sec prev_token gam alpha).

Lemma keys_boosted_items (distribution : dict R) :
  keys (boosted distribution) = keys distribution.
Proof. unfold keys, boosted_items. rewrite map_map. reflexivity. Qed.

Lemma boost_loop (distribution : dict R) : forall (acc : dict R) (t : R),
  NoDup (keys acc ++ keys distribution) ->
  fold_left (boost_step sec prev_token gam alpha) distribution (acc, t) =
  ((acc ++ boosted distribution)%list, t + total distribution).
Proof.
  induction distribution as [| [tok p] dist IH]; intros acc t Hnd.
  - simpl. rewrite app_nil_r. unfold boosted_total. simpl. f_equal. lra.
  - simpl in Hnd. apply NoDup_app in Hnd as (Hacc & Hdisj & Hd).
    apply NoDup_cons in Hd as [Htok Hd].
    assert (Hfresh : tok ∉ keys acc).
    { intros Hin. apply (Hdisj tok Hin). left. }
    cbn [fold_left boost_step]. rewrite dict_set_fresh by assumption.
    rewrite IH.
    + unfold boosted_items, boosted_total, weight.
      cbn [map Rsum fold_right fst snd].
      rewrite <- app_assoc. cbn [app]. f_equal. unfold Rsum. lra.
    + rewrite keys_app. cbn [keys map fst app].
      rewrite <- app_assoc. cbn [app].
      apply NoDup_app. split; [assumption |]. split.
      * intros x Hx Hin. apply elem_of_cons in Hin as [-> | Hin];
          [contradiction | apply (Hdisj x Hx); now right].
      * apply NoDup_cons. now split.
Qed.

(** On a dictionary the first loop maps every item to its weight and
    sums the weights. *)
Lemma boost_loop_dict (distribution : dict R) :
  is_dict distribution ->
  fold_left (boost_step sec prev_token gam alpha) distribution ([], 0) =
  (boosted distribution, total distribution).
Proof.
  intros Hd. rewrite boost_loop by exact Hd. simpl. f_equal. lra.
Qed.

End Loops.

Lemma normalize_loop_ok (total : R) (d2 : dict R) : forall d1 : dict R,
  total <> 0 ->
  NoDup (keys d1 ++ keys d2) ->
  normalize_loop (keys d2) (d1 ++ d2) total =
  Ok (d1 ++ scale_items total d2)%list.
Proof.
  induction d2 as [| [k v] d2 IH]; intros d1 Ht Hnd; simpl.
  - reflexivity.
  - simpl in Hnd. apply NoDup_app in Hnd as (H1 & Hdisj & H2).
    apply NoDup_cons in H2 as [Hk H2].
    assert (Hfresh : k ∉ keys d1).
    { intros Hin. apply (Hdisj k Hin). left. }
    rewrite dict_get_middle by assumption.
    unfold py_div. destruct (Req_dec_T total 0) as [? | _]; [contradiction |].
    simpl. rewrite dict_set_middle by assumption.
    specialize (IH (d1 ++ [(k, v / total)])%list Ht).
    rewrite <- !app_assoc in IH. simpl in IH. apply IH.
    rewrite keys_app. simpl. rewrite <- app_assoc. simpl.
    apply NoDup_app. split; [assumption |]. split.
    + intros x Hx Hin. apply elem_of_cons in Hin as [-> | Hin];
        [contradiction | apply (Hdisj x Hx); now right].
    + apply NoDup_cons. now split.
Qed.

Lemma normalize_loop_dict (total : R) (d : dict R) :
  total <> 0 -> is_dict d ->
  normalize_loop (keys d) d total = Ok (scale_items total d).
Proof. intros Ht Hd. apply (normalize_loop_ok total d [] Ht Hd). Qed.

Lemma normalize_loop_zero (d : dict R) :
  is_dict d -> d <> [] ->
  normalize_loop (keys d) d 0 = Err ZeroDivisionError.
Proof.
  intros _ Hne. destruct d as [| [k v] d]; [congruence |].
  simpl. rewrite String.eqb_refl. unfold py_div.
  destruct (Req_dec_T 0 0) as [_ | Hn]; [reflexivity | congruence].
Qed.

(** ** Weighted choice *)

Lemma accumulate_from_length (ws : list R) : forall acc,
  List.length (accumulate_from acc ws) = List.length ws.
Proof. induction ws as [| x ws IH]; intros acc; simpl; [| rewrite IH]; reflexivity. Qed.

Lemma accumulate_length (ws : list R) :
  List.length (accumulate ws) = List.length ws.
Proof. destruct ws; simpl; [| rewrite accumulate_from_length]; reflexivity. Qed.

Lemma accumulate_from_last (ws : list R) : forall acc,
  last (acc :: accumulate_from acc ws) = Some (acc + Rsum ws).
Proof.
  induction ws as [| x ws IH]; intros acc.
  - simpl. f_equal. lra.
  - cbn [accumulate_from]. rewrite last_cons_cons, IH. simpl. f_equal. lra.
Qed.

(** The last cumulative weight is the sum of the weights. *)
Lemma accumulate_last (ws : list R) :
  ws <> [] -> last (accumulate ws) = Some (Rsum ws).
Proof.
  destruct ws as [| x ws]; [congruence | intros _].
  cbn [accumulate]. rewrite accumulate_from_last. reflexivity.
Qed.

Lemma bisect_loop_range (a : list R) (x : R) (fuel : nat) : forall lo hi,
  (lo <= hi)%nat ->
  (lo <= bisect_loop fuel a x lo hi <= hi)%nat.
Proof.
  induction fuel as [| fuel IH]; intros lo hi Hle; cbn [bisect_loop]; [lia |].
  destruct (Nat.ltb_spec lo hi) as [Hlt | Hge]; [| lia].
  assert (Hmid : (lo <= (lo + hi) / 2 < hi)%nat).
  { pose proof (Nat.div_mod_eq (lo + hi) 2).
    pose proof (Nat.mod_upper_bound (lo + hi) 2). lia. }
  destruct (Rlt_dec x (nth ((lo + hi) / 2) a 0)).
  - specialize (IH lo ((lo + hi) / 2)%nat ltac:(lia)). lia.
  - specialize (IH ((lo + hi) / 2 + 1)%nat hi ltac:(lia)). lia.
Qed.

(** The unrolling in [bisect] is long enough: the loop has stopped by
    then, and more iterations change nothing. *)
Lemma bisect_loop_fuel (a : list R) (x : R) (fuel : nat) : forall lo hi extra,
  (hi - lo <= fuel)%nat ->
  bisect_loop (fuel + extra) a x lo hi = bisect_loop fuel a x lo hi.
Proof.
  induction fuel as [| fuel IH]; intros lo hi extra Hf.
  - destruct extra as [| extra]; cbn [bisect_loop Nat.add]; [reflexivity |].
    destruct (Nat.ltb_spec lo hi); [lia | reflexivity].
  - cbn [bisect_loop Nat.add].
    destruct (Nat.ltb_spec lo hi) as [Hlt | Hge]; [| reflexivity].
    assert (Hmid : (lo <= (lo + hi) / 2 < hi)%nat).
    { pose proof (Nat.div_mod_eq (lo + hi) 2).
    pose proof (Nat.mod_upper_bound (lo + hi) 2). lia. }
    destruct (Rlt_dec x (nth ((lo + hi) / 2) a 0)); apply IH; lia.
Qed.

Lemma bisect_range (a : list R) (x : R) (lo hi : nat) :
  (lo <= hi)%nat -> (lo <= bisect a x lo hi <= hi)%nat.
Proof. apply bisect_loop_range. Qed.

(** With as many weights as tokens and a positive total, [random.choices]
    consumes one random number and returns one of the tokens. *)
Lemma random_choices_ok (population : list string) (weights : list R) (w : world) :
  List.length weights = List.length population ->
  0 < Rsum weights ->
  exists tok,
    random_choices population weights w = (Ok [tok], consume_random w) /\
    In tok population.
Proof.
  intros Hlen Hpos. unfold random_choices.
  rewrite accumulate_length, Hlen, Nat.eqb_refl. cbn [negb].
  assert (Hne : weights <> []).
  { intros ->. simpl in Hpos. lra. }
  rewrite accumulate_last by assumption.
  destruct (Rle_dec (Rsum weights + 0) 0) as [Hle | _]; [lra |].
  unfold bind, random.
  set (i := bisect _ _ _ _).
  assert (Hi : (i < List.length population)%nat).
  { destruct population as [| p0 population].
    - destruct weights; [congruence | discriminate].
    - pose proof (bisect_range (accumulate weights)
                    (random_seq w 0 * (Rsum weights + 0)) 0
                    (List.length (p0 :: population) - 1) ltac:(lia)) as Hb.
      fold i in Hb. simpl in Hb |- *. lia. }
  destruct (lookup_lt_is_Some_2 population i Hi) as [tok Htok].
  exists tok. rewrite Htok. split; [reflexivity |].
  apply list_elem_of_In. eapply list_elem_of_lookup_2. exact Htok.
Qed.

Lemma choose_one_ok (population : list string) (weights : list R) (w : world) :
  List.length weights = List.length population ->
  0 < Rsum weights ->
  exists tok,
    choose_one population weights w = (Ok tok, consume_random w) /\
    In tok population.
Proof.
  intros Hlen Hpos.
  destruct (random_choices_ok population weights w Hlen Hpos) as (tok & Hrc & Hin).
  exists tok. split; [| exact Hin].
  unfold choose_one, bind. rewrite Hrc. reflexivity.
Qed.

(** ** The range of [math.exp] *)

Lemma exp_INR_mult (n : nat) (x : R) : exp (INR n * x) = exp x ^ n.
Proof.
  induction n as [| n IH].
  - simpl. rewrite Rmult_0_l. apply exp_0.
  - rewrite S_INR, Rmult_plus_distr_r, Rmult_1_l, exp_plus, IH. simpl. lra.
Qed.

(** Powers of a ratio of integers are compared on the integers. *)
Lemma pow_ratio_cross (a b c d : Z) (n : nat) :
  (0 < b)%Z -> (0 < d)%Z ->
  (IZR a / IZR b) ^ n * (IZR b ^ n * IZR d) = IZR (a ^ Z.of_nat n * d) /\
  IZR c / IZR d * (IZR b ^ n * IZR d) = IZR (c * b ^ Z.of_nat n) /\
  0 < IZR b ^ n * IZR d.
Proof.
  intros Hb Hd.
  assert (Hb' : 0 < IZR b) by now apply IZR_lt.
  assert (Hd' : 0 < IZR d) by now apply IZR_lt.
  assert (Hbn : 0 < IZR b ^ n) by now apply pow_lt.
  rewrite !mult_IZR, <- !pow_IZR. unfold Rdiv.
  rewrite Rpow_mult_distr, pow_inv.
  split; [field; lra |]. split; [field; lra |].
  now apply Rmult_lt_0_compat.
Qed.

Lemma pow_ratio_le (a b c d : Z) (n : nat) :
  (0 < b)%Z -> (0 < d)%Z ->
  (a ^ Z.of_nat n * d <= c * b ^ Z.of_nat n)%Z ->
  (IZR a / IZR b) ^ n <= IZR c / IZR d.
Proof.
  intros Hb Hd Hle.
  destruct (pow_ratio_cross a b c d n Hb Hd) as (Hl & Hr & Hpos).
  apply (Rmult_le_reg_r _ _ _ Hpos). rewrite Hl, Hr. now apply IZR_le.
Qed.

Lemma pow_ratio_ge (a b c d : Z) (n : nat) :
  (0 < b)%Z -> (0 < d)%Z ->
  (c * b ^ Z.of_nat n <= a ^ Z.of_nat n * d)%Z ->
  IZR c / IZR d <= (IZR a / IZR b) ^ n.
Proof.
  intros Hb Hd Hle.
  destruct (pow_ratio_cross a b c d n Hb Hd) as (Hl & Hr & Hpos).
  apply (Rmult_le_reg_r _ _ _ Hpos). rewrite Hl, Hr. now apply IZR_le.
Qed.

(** [e <= 2.7211], from [exp (-1/512) >= 1 - 1/512]. *)
Lemma exp_1_upper : exp 1 <= 27211 / 10000.
Proof.
  replace 1 with (INR 512 * (1 / 512)) at 1 by (simpl; lra).
  rewrite exp_INR_mult.
  assert (Hs : 0 < exp (1 / 512) <= 512 / 511).
  { split; [apply exp_pos |].
    pose proof (exp_ineq1_le (- (1 / 512))) as H.
    rewrite exp_Ropp in H. pose proof (exp_pos (1 / 512)) as Hp.
    apply (Rmult_le_reg_r (511 / 512)); [lra |].
    replace (512 / 511 * (511 / 512)) with 1 by lra.
    replace (511 / 512) with (1 + - (1 / 512)) by lra.
    apply (Rmult_le_reg_r (/ exp (1 / 512)));
      [now apply Rinv_0_lt_compat |].
    rewrite Rmult_1_l.
    replace (exp (1 / 512) * (1 + - (1 / 512)) * / exp (1 / 512))
      with (1 + - (1 / 512)) by (field; lra).
    exact H. }
  etransitivity; [apply pow_incr; split; [left; apply Hs | apply Hs] |].
  apply (pow_ratio_le 512 511 27211 10000 512); [lia | lia |].
  vm_compute. discriminate.
Qed.

(** [e >= 2.7175], from [exp (1/2048) >= 1 + 1/2048]. *)
Lemma exp_1_lower : 27175 / 10000 <= exp 1.
Proof.
  replace 1 with (INR 2048 * (1 / 2048)) at 1 by (simpl; lra).
  rewrite exp_INR_mult.
  etransitivity;
    [| apply pow_incr; split; [| apply (exp_ineq1_le (1 / 2048))]; lra].
  replace (1 + 1 / 2048) with (2049 / 2048) by lra.
  apply (pow_ratio_ge 2049 2048 27175 10000 2048); [lia | lia |].
  vm_compute. discriminate.
Qed.

(** [exp 709] is a float, [exp 710] is not. *)
Lemma exp_709 : exp 709 <= DBL_MAX.
Proof.
  rewrite <- (Rmult_1_r 709). change 709 with (IZR (Z.of_nat 709)).
  rewrite <- INR_IZR_INZ, exp_INR_mult.
  etransitivity;
    [apply pow_incr; split; [left; apply exp_pos | apply exp_1_upper] |].
  unfold DBL_MAX. rewrite <- (Rdiv_1_r (IZR (2 ^ 1024 - 2 ^ 971))).
  apply (pow_ratio_le 27211 10000 _ 1 709); [lia | lia |].
  vm_compute. discriminate.
Qed.

Lemma exp_710 : DBL_MAX < exp 710.
Proof.
  rewrite <- (Rmult_1_r 710). change 710 with (IZR (Z.of_nat 710)).
  rewrite <- INR_IZR_INZ, exp_INR_mult.
  apply Rlt_le_trans with (2 ^ 1024).
  - unfold DBL_MAX. rewrite (pow_IZR 2 1024). apply IZR_lt.
    vm_compute. reflexivity.
  - etransitivity;
      [| apply pow_incr; split; [| apply exp_1_lower]; lra].
    rewrite (pow_IZR 2 1024), <- (Rdiv_1_r (IZR (2 ^ Z.of_nat 1024))).
    apply (pow_ratio_ge 27175 10000 _ 1 710); [lia | lia |].
    vm_compute. discriminate.
Qed.

Lemma exp_monotone (x y : R) : x <= y -> exp x <= exp y.
Proof. intros [Hlt | ->]; [left; now apply exp_increasing | lra]. Qed.

Lemma exp_ge_1 (x : R) : 0 <= x -> 1 <= exp x.
Proof. intros Hx. rewrite <- exp_0. now apply exp_monotone. Qed.

Lemma tiny_lt_1 : / 2 ^ 1075 < 1.
Proof.
  rewrite <- Rinv_1. apply Rinv_lt_contravar; [| apply Rlt_pow_R1; [lra | lia]].
  rewrite Rmult_1_l. apply pow_lt. lra.
Qed.

(** For [0 <= x <= 709] the call [math.exp(x)] returns [exp x]; from 710
    on it raises [OverflowError]. *)
Lemma math_exp_ok (x : R) : 0 <= x <= 709 -> math_exp x = Ok (exp x).
Proof.
  intros [H0 H1]. unfold math_exp.
  pose proof (exp_monotone x 709 H1) as Hup. pose proof exp_709 as H709.
  pose proof (exp_ge_1 x H0) as Hlow. pose proof tiny_lt_1 as Ht.
  destruct (Rlt_dec DBL_MAX (exp x)) as [Hbad | _]; [lra |].
  destruct (Rle_dec (exp x) (/ 2 ^ 1075)) as [Hbad | _]; [lra | reflexivity].
Qed.

Lemma math_exp_overflow (x : R) : 710 <= x -> math_exp x = Err OverflowError.
Proof.
  intros Hx. unfold math_exp.
  pose proof (exp_monotone 710 x Hx) as Hup. pose proof exp_710 as H710.
  destruct (Rlt_dec DBL_MAX (exp x)) as [_ | Hbad]; [reflexivity | lra].
Qed.

(** From -746 down it returns [0.0]. *)
Lemma math_exp_underflow (x : R) : x <= -746 -> math_exp x = Ok 0.
Proof.
  intros Hx. unfold math_exp.
  assert (H746 : 2 ^ 1075 <= exp 746).
  { rewrite <- (Rmult_1_r 746). change 746 with (IZR (Z.of_nat 746)).
    rewrite <- INR_IZR_INZ, exp_INR_mult.
    etransitivity;
      [| apply pow_incr; split; [| apply exp_1_lower]; lra].
    rewrite (pow_IZR 2 1075), <- (Rdiv_1_r (IZR (2 ^ Z.of_nat 1075))).
    apply (pow_ratio_ge 27175 10000 _ 1 746); [lia | lia |].
    vm_compute. discriminate. }
  assert (Hpow : 0 < 2 ^ 1075) by (apply pow_lt; lra).
  assert (Hsmall : exp x <= / 2 ^ 1075).
  { etransitivity; [apply (exp_monotone x (Ropp 746)); lra |].
    rewrite exp_Ropp. apply Rinv_le_contravar; assumption. }
  assert (Hmax : 1 <= DBL_MAX).
  { unfold DBL_MAX. apply IZR_le. vm_compute. discriminate. }
  pose proof tiny_lt_1 as Ht.
  destruct (Rlt_dec DBL_MAX (exp x)) as [Hbad | _]; [lra |].
  destruct (Rle_dec (exp x) (/ 2 ^ 1075)) as [_ | Hbad];
    [reflexivity | contradiction].
Qed.

(** [math.exp] raises nothing but [OverflowError], and what it returns is
    not negative. *)
Lemma math_exp_cases (x : R) :
  math_exp x = Err OverflowError \/
  exists alpha, math_exp x = Ok alpha /\ 0 <= alpha.
Proof.
  unfold math_exp. destruct (Rlt_dec DBL_MAX (exp x)); [now left | right].
  destruct (Rle_dec (exp x) (/ 2 ^ 1075)).
  - exists 0. split; [reflexivity | lra].
  - exists (exp x). split; [reflexivity | left; apply exp_pos].
Qed.

(** ** The sampler *)

Lemma is_dict_boosted_items sec prev g a (distribution : dict R) :
  is_dict distribution -> is_dict (boosted_items sec prev g a distribution).
Proof. unfold is_dict. now rewrite keys_boosted_items. Qed.

Lemma unzip_scaled sec prev g a (t : R) (distribution : dict R) :
  distribution <> [] ->
  unzip_items (scale_items t (boosted_items sec prev g a distribution)) =
  Ok (keys distribution,
      map (fun item => weight sec prev g a item / t) distribution).
Proof.
  intros Hne. unfold scale_items, boosted_items. rewrite map_map.
  destruct distribution as [| item distribution]; [congruence |].
  unfold unzip_items, keys, values. cbn [map].
  rewrite !map_map. reflexivity.
Qed.

(** *** Up to the call of [random.choices] *)

Lemma sampling_weights_unknown (model_id prev_token : string)
    (distribution : dict R) (w : world) :
  MODEL_KEYS w !! model_id = None ->
  sampling_weights model_id distribution prev_token w =
  (Err (KeyError model_id), w).
Proof.
  intros Hm. unfold sampling_weights, bind, lookup_model. now rewrite Hm.
Qed.

Lemma sampling_weights_exp_error (model_id prev_token : string) (m : model)
    (distribution : dict R) (e : exn) (w : world) :
  MODEL_KEYS w !! model_id = Some m ->
  math_exp (delta m) = Err e ->
  sampling_weights model_id distribution prev_token w = (Err e, w).
Proof.
  intros Hm He. unfold sampling_weights, bind, lookup_model, lift.
  rewrite Hm, He. reflexivity.
Qed.

Lemma sampling_weights_on_empty (model_id prev_token : string) (m : model)
    (alpha : R) (w : world) :
  MODEL_KEYS w !! model_id = Some m ->
  math_exp (delta m) = Ok alpha ->
  sampling_weights model_id [] prev_token w = (Err ValueError, w).
Proof.
  intros Hm Ha. unfold sampling_weights, bind, lookup_model, lift.
  rewrite Hm, Ha. reflexivity.
Qed.

Lemma sampling_weights_on_zero_total (model_id prev_token : string)
    (m : model) (alpha : R) (distribution : dict R) (w : world) :
  MODEL_KEYS w !! model_id = Some m ->
  math_exp (delta m) = Ok alpha ->
  is_dict distribution -> distribution <> [] ->
  boosted_total (secret m) prev_token (gamma m) alpha distribution = 0 ->
  sampling_weights model_id distribution prev_token w =
  (Err ZeroDivisionError, w).
Proof.
  intros Hm Ha Hd Hne Hz. unfold sampling_weights, bind, lookup_model, lift.
  rewrite Hm, Ha, boost_loop_dict by assumption. rewrite Hz.
  rewrite normalize_loop_zero; [reflexivity | now apply is_dict_boosted_items |].
  destruct distribution; [congruence | discriminate].
Qed.

Lemma sampling_weights_on_nonzero_total (model_id prev_token : string)
    (m : model) (alpha : R) (distribution : dict R) (w : world) :
  MODEL_KEYS w !! model_id = Some m ->
  math_exp (delta m) = Ok alpha ->
  is_dict distribution ->
  boosted_total (secret m) prev_token (gamma m) alpha distribution <> 0 ->
  sampling_weights model_id distribution prev_token w =
  (Ok (keys distribution,
       map (fun item =>
              weight (secret m) prev_token (gamma m) alpha item /
              boosted_total (secret m) prev_token (gamma m) alpha distribution)
         distribution), w).
Proof.
  intros Hm Ha Hd Hnz. unfold sampling_weights, bind, lookup_model, lift.
  rewrite Hm, Ha, boost_loop_dict by assumption.
  rewrite normalize_loop_dict by (try assumption; now apply is_dict_boosted_items).
  assert (Hne : distribution <> []).
  { intros ->. apply Hnz. reflexivity. }
  rewrite unzip_scaled by assumption. reflexivity.
Qed.

(** Nothing before the call of [random.choices] touches the state. *)
Lemma sampling_weights_pure (model_id prev_token : string)
    (distribution : dict R) (w : world) :
  snd (sampling_weights model_id distribution prev_token w) = w.
Proof.
  unfold sampling_weights, bind, lookup_model, lift.
  destruct (MODEL_KEYS w !! model_id) as [m |]; [| reflexivity].
  destruct (math_exp (delta m)) as [alpha |]; [| reflexivity].
  destruct (fold_left _ _ _) as [boosted total].
  destruct (normalize_loop _ _ _); reflexivity.
Qed.

(** Of the state it reads the secret, [gamma] and [delta] of the model. *)
Lemma sampling_weights_config (model_id prev_token : string)
    (m1 m2 : model) (distribution : dict R) (w1 w2 : world) :
  MODEL_KEYS w1 !! model_id = Some m1 ->
  MODEL_KEYS w2 !! model_id = Some m2 ->
  secret m1 = secret m2 -> gamma m1 = gamma m2 -> delta m1 = delta m2 ->
  fst (sampling_weights model_id distribution prev_token w1) =
  fst (sampling_weights model_id distribution prev_token w2).
Proof.
  intros H1 H2 Hs Hg Hd.
  unfold sampling_weights, bind, lookup_model, lift.
  rewrite H1, H2, Hs, Hg, Hd.
  destruct (math_exp (delta m2)) as [alpha |]; [| reflexivity].
  destruct (fold_left _ _ _) as [boosted total].
  destruct (normalize_loop _ _ _); reflexivity.
Qed.

(** *** The whole call *)

Lemma select_after_error (model_id prev_token : string)
    (distribution : dict R) (e : exn) (w w' : world) :
  sampling_weights model_id distribution prev_token w = (Err e, w') ->
  select_watermarked_token model_id distribution prev_token w = (Err e, w').
Proof.
  intros H. unfold select_watermarked_token, bind. now rewrite H.
Qed.

Lemma select_after_weights (model_id prev_token : string)
    (distribution : dict R) (tokens : list string) (weights : list R)
    (w w' : world) :
  sampling_weights model_id distribution prev_token w =
    (Ok (tokens, weights), w') ->
  select_watermarked_token model_id distribution prev_token w =
  choose_one tokens weights w'.
Proof.
  intros H. unfold select_watermarked_token, bind. now rewrite H.
Qed.

Lemma select_unknown (model_id prev_token : string)
    (distribution : dict R) (w : world) :
  MODEL_KEYS w !! model_id = None ->
  select_watermarked_token model_id distribution prev_token w =
  (Err (KeyError model_id), w).
Proof.
  intros Hm. apply select_after_error. now apply sampling_weights_unknown.
Qed.

Lemma select_on_exp_error (model_id prev_token : string) (m : model)
    (distribution : dict R) (e : exn) (w : world) :
  MODEL_KEYS w !! model_id = Some m ->
  math_exp (delta m) = Err e ->
  select_watermarked_token model_id distribution prev_token w = (Err e, w).
Proof.
  intros Hm He. apply select_after_error.
  now apply (sampling_weights_exp_error model_id prev_token m).
Qed.

Lemma select_on_empty (model_id prev_token : string) (m : model)
    (alpha : R) (w : world) :
  MODEL_KEYS w !! model_id = Some m ->
  math_exp (delta m) = Ok alpha ->
  select_watermarked_token model_id [] prev_token w = (Err ValueError, w).
Proof.
  intros Hm Ha. apply select_after_error.
  now apply (sampling_weights_on_empty model_id prev_token m alpha).
Qed.

Lemma select_on_zero_total (model_id prev_token : string) (m : model)
    (alpha : R) (distribution : dict R) (w : world) :
  MODEL_KEYS w !! model_id = Some m ->
  math_exp (delta m) = Ok alpha ->
  is_dict distribution -> distribution <> [] ->
  boosted_total (secret m) prev_token (gamma m) alpha distribution = 0 ->
  select_watermarked_token model_id distribution prev_token w =
  (Err ZeroDivisionError, w).
Proof.
  intros Hm Ha Hd Hne Hz. apply select_after_error.
  now apply (sampling_weights_on_zero_total model_id prev_token m alpha).
Qed.

Lemma select_on_nonzero_total (model_id prev_token : string) (m : model)
    (distribution : dict R) (w : world) :
  MODEL_KEYS w !! model_id = Some m ->
  math_exp (delta m) = Ok (exp (delta m)) ->
  is_dict distribution ->
  boosted_total (secret m) prev_token (gamma m) (exp (delta m)) distribution <> 0 ->
  select_watermarked_token model_id distribution prev_token w =
  choose_one (keys distribution) (normalized_weights m prev_token distribution) w.
Proof.
  intros Hm Ha Hd Hnz. apply select_after_weights.
  now apply (sampling_weights_on_nonzero_total model_id prev_token m).
Qed.

Lemma normalized_weights_sum (m : model) (prev_token : string)
    (distribution : dict R) :
  boosted_total (secret m) prev_token (gamma m) (exp (delta m)) distribution <> 0 ->
  Rsum (normalized_weights m prev_token distribution) = 1.
Proof.
  intros Hnz. unfold normalized_weights, boosted_total in *. cbv zeta.
  set (wt := weight _ _ _ _) in *. set (t := Rsum (map wt distribution)) in *.
  rewrite <- (map_map wt (fun x => x / t)), Rsum_scale.
  fold t. now apply Rdiv_diag.
Qed.

Lemma normalized_weights_length (m : model) (prev_token : string)
    (distribution : dict R) :
  List.length (normalized_weights m prev_token distribution) =
  List.length (keys distribution).
Proof. unfold normalized_weights, keys. now rewrite !length_map. Qed.


Lemma boosted_total_lower sec prev g a (distribution : dict R) :
  0 < a ->
  Forall (fun item => 0 <= snd item) distribution ->
  Rmin 1 a * mass distribution <= boosted_total sec prev g a distribution.
Proof.
  intros Ha Hp. unfold mass, boosted_total, values.
  induction Hp as [| [tok p] dist Hx Hd IH]; simpl; [lra |].
  simpl in Hx. unfold weight at 1. cbn [fst snd].
  pose proof (Rmin_l 1 a). pose proof (Rmin_r 1 a).
  assert (0 < Rmin 1 a) by (apply Rmin_glb_lt; lra).
  destruct (_is_green sec prev tok g); nra.
Qed.

Lemma boosted_total_pos sec prev g a (distribution : dict R) :
  0 < a ->
  Forall (fun item => 0 <= snd item) distribution ->
  0 < mass distribution ->
  0 < boosted_total sec prev g a distribution.
Proof.
  intros Ha Hp Hm.
  pose proof (boosted_total_lower sec prev g a distribution Ha Hp).
  assert (0 < Rmin 1 a) by (apply Rmin_glb_lt; lra).
  nra.
Qed.

Lemma zero_mass_all_zero (distribution : dict R) :
  Forall (fun item => 0 <= snd item) distribution ->
  mass distribution <= 0 ->
  Forall (fun item => snd item = 0) distribution.
Proof.
  unfold mass, values. intros Hp.
  induction Hp as [| [tok p] dist Hx Hd IH]; intros Hm; constructor.
  - simpl in *. pose proof (Rsum_nonneg (map snd dist)) as Hn.
    rewrite Forall_map in Hn. specialize (Hn Hd). lra.
  - apply IH. simpl in *.  lra.
Qed.

Lemma boosted_total_zero sec prev g a (distribution : dict R) :
  Forall (fun item => snd item = 0) distribution ->
  boosted_total sec prev g a distribution = 0.
Proof.
  intros Hz. unfold boosted_total. apply Rsum_zero.
  rewrite Forall_map. eapply Forall_impl; [exact Hz |].
  intros [tok p] Hp. simpl in Hp. subst p. unfold weight. cbn [fst snd].
  destruct (_is_green _ _ _ _); lra.
Qed.

(** Whenever [math.exp(delta)] returns [exp delta] and the boosted weights
    do not add up to zero, a token of the distribution comes back and one
    random number is consumed. *)
Lemma select_samples (model_id prev_token : string) (m : model)
    (distribution : dict R) (w : world) :
  MODEL_KEYS w !! model_id = Some m ->
  math_exp (delta m) = Ok (exp (delta m)) ->
  is_dict distribution ->
  boosted_total (secret m) prev_token (gamma m) (exp (delta m)) distribution <> 0 ->
  exists tok,
    select_watermarked_token model_id distribution prev_token w =
      (Ok tok, consume_random w) /\
    In tok (keys distribution).
Proof.
  intros Hm Ha Hd Hnz.
  rewrite (select_on_nonzero_total model_id prev_token m) by assumption.
  apply choose_one_ok.
  - apply normalized_weights_length.
  - rewrite normalized_weights_sum by assumption. lra.
Qed.

(** In the range of the properties below: a stored [delta] between 0 and
    709 and non-negative probabilities with a positive total. *)
Lemma boosted_total_in_range (m : model) (prev_token : string)
    (distribution : dict R) :
  Forall (fun item => 0 <= snd item) distribution ->
  0 < mass distribution ->
  0 < boosted_total (secret m) prev_token (gamma m) (exp (delta m)) distribution.
Proof. intros Hp Hmass. now apply boosted_total_pos; [apply exp_pos | |]. Qed.

Lemma sampling_weights_in_range (model_id prev_token : string) (m : model)
    (distribution : dict R) (w : world) :
  MODEL_KEYS w !! model_id = Some m ->
  0 <= delta m <= 709 ->
  is_dict distribution ->
  Forall (fun item => 0 <= snd item) distribution ->
  0 < mass distribution ->
  sampling_weights model_id distribution prev_token w =
  (Ok (keys distribution, normalized_weights m prev_token distribution), w).
Proof.
  intros Hm Hdelta Hd Hp Hmass.
  apply (sampling_weights_on_nonzero_total model_id prev_token m);
    try assumption; [now apply math_exp_ok |].
  pose proof (boosted_total_in_range m prev_token distribution Hp Hmass). lra.
Qed.




(** C5 (amended). On an empty distribution, and on a distribution of
    non-negative probabilities whose total mass is at most 0, the call
    fails and changes nothing: with [KeyError] when the model is unknown,
    else with the [OverflowError] of [math.exp(delta)] when the stored
    [delta] is out of range, else with [ValueError] (nothing to unpack)
    when the distribution is empty and with [ZeroDivisionError] (the
    division by the total) otherwise. *)
Theorem select_fails_on_empty_or_zero_mass
    (model_id prev_token : string) (distribution : dict R) (w : world) :
  is_dict distribution ->
  Forall (fun item => 0 <= snd item) distribution ->
  mass distribution <= 0 ->
  select_watermarked_token model_id distribution prev_token w =
  (Err match MODEL_KEYS w !! model_id with
       | None => KeyError model_id
       | Some m =>
           match math_exp (delta m) with
           | Err e => e
           | Ok _ => match distribution with
                     | [] => ValueError
                     | _ :: _ => ZeroDivisionError
                     end
           end
       end, w).
Proof.
  intros Hd Hp Hmass.
  destruct (MODEL_KEYS w !! model_id) as [m |] eqn:Hm.
  - destruct (math_exp (delta m)) as [alpha | e] eqn:Ha.
    + destruct distribution as [| item distribution].
      * apply (select_on_empty model_id prev_token m alpha); assumption.
      * apply (select_on_zero_total model_id prev_token m alpha);
          try assumption; [discriminate |].
        apply boosted_total_zero, zero_mass_all_zero; assumption.
    + now apply (select_on_exp_error model_id prev_token m).
  - now apply select_unknown.
Qed.

(** C10 (amended). For a registered model whose stored [delta] lies
    between 0 and 709, and a non-empty distribution of non-negative
    probabilities with a positive total mass of at most 1, the call
    returns a token, that token is a key of the distribution, and exactly
    one random number has been consumed. *)
Theorem select_returns_a_key_in_range
    (model_id prev_token : string) (m : model) (distribution : dict R)
    (w : world) :
  MODEL_KEYS w !! model_id = Some m ->
  0 <= delta m <= 709 ->
  is_dict distribution ->
  distribution <> [] ->
  Forall (fun item => 0 <= snd item) distribution ->
  0 < mass distribution <= 1 ->
  exists tok,
    select_watermarked_token model_id distribution prev_token w =
      (Ok tok, consume_random w) /\
    In tok (keys distribution).
Proof.
  intros Hm Hdelta Hd _ Hp [Hmass _].
  pose proof (boosted_total_in_range m prev_token distribution Hp Hmass) as Hpos.
  apply (select_samples model_id prev_token m); try assumption;
    [now apply math_exp_ok | lra].
Qed.

(** ** The detector *)

Lemma count_loop_counts sec g (tokens : list string) :
  forall (rest visited : list string) (count : nat),
    tokens = (visited ++ rest)%list ->
    count_loop sec g tokens (List.length visited) rest count =
    (count +
     List.length
       (List.filter
          (fun i => _is_green sec (context_at tokens i)
                      (nth i tokens EmptyString) g)
          (seq (List.length visited) (List.length rest))))%nat.
Proof.
  induction rest as [| tok rest IH]; intros visited count Htok.
  - simpl. lia.
  - cbn [count_loop List.length seq List.filter].
    assert (Hnth : nth (List.length visited) tokens EmptyString = tok).
    { rewrite Htok, app_nth2, Nat.sub_diag by lia. reflexivity. }
    assert (Hprev : (if (0 <? List.length visited)%nat
                     then nth (List.length visited - 1) tokens EmptyString
                     else EmptyString)
                    = context_at tokens (List.length visited)).
    { destruct (List.length visited) as [| j]; [reflexivity |].
      replace (S j - 1)%nat with j by lia. reflexivity. }
    rewrite Hprev, Hnth.
    specialize (IH (visited ++ [tok])%list).
    rewrite length_app in IH. cbn [List.length] in IH.
    rewrite Nat.add_1_r in IH.
    rewrite IH by (rewrite <- app_assoc; exact Htok).
    destruct (_is_green sec (context_at tokens (List.length visited)) tok g);
      cbn [List.length]; lia.
Qed.

(** The counter of [detect_watermark] ends at the specification's count. *)
Lemma count_loop_is_count_green sec g (tokens : list string) :
  count_loop sec g tokens 0 tokens 0 = count_green sec g tokens.
Proof. apply (count_loop_counts sec g tokens tokens [] 0%nat). reflexivity. Qed.

Lemma INR_length_pos {A} (l : list A) : l <> [] -> 0 < INR (List.length l).
Proof.
  intros Hne. destruct l; [congruence |].
  apply lt_0_INR. simpl. lia.
Qed.

Lemma length_eqb_nonempty {A} (l : list A) :
  l <> [] -> (List.length l =? 0)%nat = false.
Proof. destruct l; [congruence | reflexivity]. Qed.

(** C2. For a registered model with [0 < gamma < 1] and a non-empty
    sequence of [T] tokens, [detect_watermark] returns
    [(count_green - gamma * T) / sqrt (T * gamma * (1 - gamma))], where
    [count_green] counts the positions that are green in the context of
    their predecessor, the context of the first position being the empty
    string, which is also the default [prev_token] of a watermark
    request. *)
Theorem detect_z_score
    (model_id : string) (m : model) (tokens : list string) (w : world) :
  MODEL_KEYS w !! model_id = Some m ->
  0 < gamma m < 1 ->
  tokens <> [] ->
  let T := INR (List.length tokens) in
  let c := INR (count_green (secret m) (gamma m) tokens) in
  detect_watermark model_id tokens w =
    (Ok ((c - gamma m * T) / sqrt (T * gamma m * (1 - gamma m))), w) /\
  context_at tokens 0 = default_prev_token.
Proof.
  intros Hm [Hg0 Hg1] Hne T c. split; [| reflexivity].
  unfold detect_watermark, bind, lookup_model, lift.
  rewrite Hm, length_eqb_nonempty by assumption.
  pose proof (INR_length_pos tokens Hne) as HT. fold T in HT |- *.
  assert (Hpos : 0 < T * gamma m * (1 - gamma m)).
  { apply Rmult_lt_0_compat; [apply Rmult_lt_0_compat |]; lra. }
  unfold math_sqrt.
  destruct (Rlt_dec (T * gamma m * (1 - gamma m)) 0) as [Hneg | _]; [lra |].
  pose proof (sqrt_lt_R0 _ Hpos) as Hs.
  unfold py_div.
  destruct (Req_dec_T (sqrt (T * gamma m * (1 - gamma m))) 0) as [Hz | _]; [lra |].
  rewrite count_loop_is_count_green. reflexivity.
Qed.

(** C7. For a registered model whose [gamma] is exactly 0 or exactly 1,
    detection on a non-empty sequence raises [ZeroDivisionError], an
    [ArithmeticError], and returns no score. *)
Theorem detect_zero_variance_raises
    (model_id : string) (m : model) (tokens : list string) (w : world) :
  MODEL_KEYS w !! model_id = Some m ->
  gamma m = 0 \/ gamma m = 1 ->
  tokens <> [] ->
  detect_watermark model_id tokens w = (Err ZeroDivisionError, w) /\
  is_ArithmeticError ZeroDivisionError = true.
Proof.
  intros Hm Hg Hne. split; [| reflexivity].
  unfold detect_watermark, bind, lookup_model, lift.
  rewrite Hm, length_eqb_nonempty by assumption.
  assert (Hz : INR (List.length tokens) * gamma m * (1 - gamma m) = 0).
  { destruct Hg as [-> | ->]; lra. }
  rewrite Hz. unfold math_sqrt.
  destruct (Rlt_dec 0 0) as [Hneg | _]; [lra |].
  rewrite sqrt_0. unfold py_div.
  destruct (Req_dec_T 0 0) as [_ | Hn]; [reflexivity | congruence].
Qed.

(** C9. For a registered model, detection on the empty sequence returns
    0.0, whatever the stored [gamma], [delta] and secret. *)
Theorem detect_empty_is_zero (model_id : string) (m : model) (w : world) :
  MODEL_KEYS w !! model_id = Some m ->
  detect_watermark model_id [] w = (Ok 0, w).
Proof.
  intros Hm. unfold detect_watermark, bind, lookup_model.
  rewrite Hm. reflexivity.
Qed.

(** C8. For a model identifier absent from [MODEL_KEYS], both
    [select_watermarked_token] and [detect_watermark] raise [KeyError] for
    that identifier (the registry's not-found error, a [LookupError]);
    the registry is unchanged and no random number is consumed. *)
Theorem unknown_model_raises_KeyError
    (model_id prev_token : string) (distribution : dict R)
    (tokens : list string) (w : world) :
  MODEL_KEYS w !! model_id = None ->
  select_watermarked_token model_id distribution prev_token w =
    (Err (KeyError model_id), w) /\
  detect_watermark model_id tokens w = (Err (KeyError model_id), w) /\
  is_LookupError (KeyError model_id) = true.
Proof.
  intros Hm.
  unfold select_watermarked_token, sampling_weights, detect_watermark, bind,
    lookup_model.
  rewrite Hm. repeat split.
Qed.

(** ** Registration *)

Lemma parse_RegisterRequest_ok (model_id : string) (vocab : list string)
    (secret : string) (gamma delta : R) :
  0 <= gamma <= 1 -> 0 <= delta ->
  parse_RegisterRequest model_id vocab secret (Some gamma) (Some delta) =
  Ok (MkRegisterRequest model_id vocab secret gamma delta).
Proof.
  intros [Hg0 Hg1] Hd. unfold parse_RegisterRequest. cbv zeta.
  destruct (Rle_dec 0 gamma); [| lra].
  destruct (Rle_dec gamma 1); [| lra].
  destruct (Rle_dec 0 delta); [reflexivity | lra].
Qed.

Lemma parse_RegisterRequest_err (model_id : string) (vocab : list string)
    (secret : string) (gamma delta : R) :
  gamma < 0 \/ 1 < gamma \/ delta < 0 ->
  exists fields,
    parse_RegisterRequest model_id vocab secret (Some gamma) (Some delta) =
    Err (ValidationError fields).
Proof.
  intros H. unfold parse_RegisterRequest. cbv zeta.
  destruct (Rle_dec 0 gamma); [destruct (Rle_dec gamma 1) |];
    destruct (Rle_dec 0 delta); cbn [app]; eauto; lra.
Qed.

(** C6 (amended). [register_model] checks nothing: for every [gamma],
    [delta] and secret, the empty secret included, it succeeds, stores the
    configuration (with the encoded secret) under [model_id] and leaves
    every other entry as it was.  The range checks are those of the
    request schema of the [/register] endpoint: a request whose [gamma] is
    outside [0, 1] or whose [delta] is negative is refused with a
    [ValidationError] and the registry unchanged, and every other request,
    whatever its secret, registers the model. *)
Theorem register_model_unvalidated_upsert
    (model_id : string) (vocab : list string) (secret : string)
    (gamma delta : R) (w : world) :
  let cfg := Model vocab (encode secret) gamma delta in
  let w' := World (<[model_id := cfg]> (MODEL_KEYS w)) (random_seq w) in
  register_model model_id vocab secret gamma delta w = (Ok tt, w') /\
  MODEL_KEYS w' !! model_id = Some cfg /\
  (forall other, other <> model_id ->
     MODEL_KEYS w' !! other = MODEL_KEYS w !! other) /\
  (gamma < 0 \/ 1 < gamma \/ delta < 0 ->
   exists fields,
     post_register model_id vocab secret (Some gamma) (Some delta) w =
     (Err (ValidationError fields), w)) /\
  (0 <= gamma <= 1 -> 0 <= delta ->
   post_register model_id vocab secret (Some gamma) (Some delta) w =
   (Ok "registered"%string, w')).
Proof.
  cbv zeta. split; [reflexivity |]. split; [apply lookup_insert_eq |].
  split; [intros other Hne; now apply lookup_insert_ne |]. split.
  - intros Hbad.
    destruct (parse_RegisterRequest_err model_id vocab secret gamma delta Hbad)
      as [fields Hf].
    exists fields. unfold post_register, bind, lift. rewrite Hf. reflexivity.
  - intros Hg Hd. unfold post_register, bind, lift.
    rewrite parse_RegisterRequest_ok by assumption. reflexivity.
Qed.

(** ** The scenario of the specification *)

Lemma two_pow_64 : 2 ^ 64 = IZR 18446744073709551616.
Proof. rewrite (pow_IZR 2 64). f_equal. Qed.

Lemma digest_prefix_k1_a :
  int_from_bytes_big
    (firstn 8 (HMAC.hmac_sha256 (encode "k1")
                 (encode EmptyString ++ encode "a")%list)) =
  13009277578498082139%Z.
Proof. vm_compute. reflexivity. Qed.

Lemma green_u_k1_a :
  green_u (encode "k1") EmptyString "a" = IZR 13009277578498082139 / 2 ^ 64.
Proof. unfold green_u. rewrite digest_prefix_k1_a. reflexivity. Qed.

Lemma digest_prefix_k1_b :
  int_from_bytes_big
    (firstn 8 (HMAC.hmac_sha256 (encode "k1")
                 (encode EmptyString ++ encode "b")%list)) =
  13621378459949692973%Z.
Proof. vm_compute. reflexivity. Qed.

Lemma green_u_k1_b :
  green_u (encode "k1") EmptyString "b" = IZR 13621378459949692973 / 2 ^ 64.
Proof. unfold green_u. rewrite digest_prefix_k1_b. reflexivity. Qed.

(** The two oracle answers of the scenario: both tokens are red. *)
Example is_green_k1_a :
  _is_green (encode "k1") EmptyString "a" (1 / 2) = false.
Proof.
  destruct (_is_green _ _ _ _) eqn:E; [| reflexivity].
  apply is_green_iff in E. rewrite green_u_k1_a, two_pow_64 in E. lra.
Qed.

Example is_green_k1_b :
  _is_green (encode "k1") EmptyString "b" (1 / 2) = false.
Proof.
  destruct (_is_green _ _ _ _) eqn:E; [| reflexivity].
  apply is_green_iff in E. rewrite green_u_k1_b, two_pow_64 in E. lra.
Qed.

Lemma scenario_registered :
  MODEL_KEYS scenario_world !! "m"%string = Some scenario_model.
Proof. apply lookup_insert_eq. Qed.

Lemma scenario_is_dict : is_dict scenario_distribution.
Proof. apply (bool_decide_unpack _). vm_compute. exact I. Qed.

Lemma scenario_mass : mass scenario_distribution = 1.
Proof. unfold mass, scenario_distribution. simpl. lra. Qed.

Lemma unbiased_registered :
  MODEL_KEYS unbiased_world !! "m"%string = Some unbiased_model.
Proof. apply lookup_insert_eq. Qed.

Lemma all_green_registered :
  MODEL_KEYS all_green_world !! "m"%string = Some all_green_model.
Proof. apply lookup_insert_eq. Qed.

Lemma scenario_nonneg :
  Forall (fun item : string * R => 0 <= snd item) scenario_distribution.
Proof.
  unfold scenario_distribution.
  constructor; [simpl; lra |]. constructor; [simpl; lra | constructor].
Qed.

Lemma scenario_boosted_total :
  Rsum
    (map (fun item : string * R =>
            if _is_green (secret scenario_model) EmptyString (fst item)
                 (gamma scenario_model)
            then snd item * exp (delta scenario_model) else snd item)
       scenario_distribution) = 1.
Proof.
  unfold scenario_distribution. cbn [map Rsum fold_right fst snd].
  change (secret scenario_model) with (encode "k1").
  change (gamma scenario_model) with (1 / 2).
  rewrite is_green_k1_a, is_green_k1_b. lra.
Qed.

Lemma digest_prefix_k1_c :
  int_from_bytes_big
    (firstn 8 (HMAC.hmac_sha256 (encode "k1")
                 (encode EmptyString ++ encode "c")%list)) =
  4038342114453696299%Z.
Proof. vm_compute. reflexivity. Qed.

(** After the empty context, the token [c] is green. *)
Example is_green_k1_c :
  _is_green (encode "k1") EmptyString "c" (1 / 2) = true.
Proof.
  apply is_green_iff. unfold green_u.
  rewrite digest_prefix_k1_c, two_pow_64. lra.
Qed.

Lemma digest_prefix_k1_d :
  int_from_bytes_big
    (firstn 8 (HMAC.hmac_sha256 (encode "k1")
                 (encode EmptyString ++ encode "d")%list)) =
  5348218308220132163%Z.
Proof. vm_compute. reflexivity. Qed.

(** So is the token [d]. *)
Example is_green_k1_d :
  _is_green (encode "k1") EmptyString "d" (1 / 2) = true.
Proof.
  apply is_green_iff. unfold green_u.
  rewrite digest_prefix_k1_d, two_pow_64. lra.
Qed.

Lemma mixed_is_dict : is_dict mixed_distribution.
Proof. apply (bool_decide_unpack _). vm_compute. exact I. Qed.

Lemma mixed_nonneg :
  Forall (fun item : string * R => 0 <= snd item) mixed_distribution.
Proof.
  unfold mixed_distribution.
  constructor; [simpl; lra |]. constructor; [simpl; lra | constructor].
Qed.

Lemma mixed_mass : mass mixed_distribution = 1.
Proof. unfold mass, mixed_distribution. simpl. lra. Qed.






Lemma green_is_dict : is_dict green_distribution.
Proof. apply (bool_decide_unpack _). vm_compute. exact I. Qed.

Lemma green_nonneg :
  Forall (fun item : string * R => 0 <= snd item) green_distribution.
Proof.
  unfold green_distribution.
  constructor; [simpl; lra |]. constructor; [simpl; lra | constructor].
Qed.

Lemma green_mass_half : mass green_distribution = 1 / 2.
Proof. unfold mass, green_distribution. simpl. lra. Qed.

Lemma green_all_green :
  Forall (fun item : string * R =>
            _is_green (secret scenario_model) EmptyString (fst item)
              (gamma scenario_model) = true)
    green_distribution.
Proof.
  unfold green_distribution.
  constructor; [exact is_green_k1_c |]. constructor; [exact is_green_k1_d |].
  constructor.
Qed.

(** [math.exp(2.0)] returns. *)
Lemma scenario_exp :
  math_exp (delta scenario_model) = Ok (exp (delta scenario_model)).
Proof. apply math_exp_ok. simpl. lra. Qed.

Lemma post_register_scenario :
  post_register "m" ["a"; "b"]%string "k1" (Some (1 / 2)) (Some 2) empty_world =
  (Ok "registered"%string, scenario_world).
Proof.
  unfold post_register, bind, lift.
  rewrite parse_RegisterRequest_ok by lra. reflexivity.
Qed.

(** The endpoint accepts [delta = 1000]. *)
Lemma post_register_overflow :
  post_register "m" ["a"; "b"]%string "k1" (Some (1 / 2)) (Some 1000)
    empty_world =
  (Ok "registered"%string, overflow_world).
Proof.
  unfold overflow_world, post_register, bind, lift.
  rewrite parse_RegisterRequest_ok by lra. reflexivity.
Qed.

Lemma overflow_registered :
  MODEL_KEYS overflow_world !! "m"%string = Some overflow_model.
Proof.
  unfold overflow_world, post_register, bind, lift.
  rewrite parse_RegisterRequest_ok by lra. apply lookup_insert_eq.
Qed.

(** ** Counterexamples and instances *)

(** C5, counterexample: a distribution of total mass -1 is not refused;
    its only token is returned. *)
Lemma select_accepts_negative_mass :
  mass [("a"%string, -1)] <= 0 /\
  select_watermarked_token "m" [("a"%string, -1)] EmptyString scenario_world =
  (Ok "a"%string, consume_random scenario_world).
Proof.
  split; [unfold mass; simpl; lra |].
  destruct (select_samples "m" EmptyString scenario_model
              [("a"%string, -1)] scenario_world scenario_registered
              scenario_exp)
    as (tok & Hsel & Hin).
  - apply (bool_decide_unpack _). vm_compute. exact I.
  - unfold boosted_total, weight. cbn [map Rsum fold_right fst snd].
    change (secret scenario_model) with (encode "k1").
    change (gamma scenario_model) with (1 / 2).
    rewrite is_green_k1_a. lra.
  - destruct Hin as [<- | []]. exact Hsel.
Qed.

(** C6, counterexample: [register_model] with [gamma = 1.5], [delta = -1]
    and an empty secret succeeds and changes the registry. *)
Lemma register_model_accepts_invalid :
  1 < 3 / 2 /\ -1 < 0 /\
  register_model "m" [] EmptyString (3 / 2) (-1) empty_world =
    (Ok tt, World (<["m"%string := Model [] [] (3 / 2) (-1)]> ∅) (fun _ => 0)) /\
  MODEL_KEYS empty_world !! "m"%string = None /\
  MODEL_KEYS (snd (register_model "m" [] EmptyString (3 / 2) (-1) empty_world))
    !! "m"%string = Some (Model [] [] (3 / 2) (-1)).
Proof.
  split; [lra |]. split; [lra |]. split; [reflexivity |].
  split; [reflexivity | apply lookup_insert_eq].
Qed.

(** C2 on the scenario: the sequence [a b] under model [m]. *)
Lemma detect_z_score_witness :
  detect_watermark "m" ["a"; "b"]%string scenario_world =
    (Ok ((INR (count_green (encode "k1") (1 / 2) ["a"; "b"]%string)
          - 1 / 2 * INR 2) / sqrt (INR 2 * (1 / 2) * (1 - 1 / 2))),
     scenario_world) /\
  context_at ["a"; "b"]%string 0 = default_prev_token.
Proof.
  apply (detect_z_score "m" scenario_model ["a"; "b"]%string scenario_world).
  - exact scenario_registered.
  - simpl. lra.
  - discriminate.
Defined.



(** C5 (amended) on a distribution whose only probability is zero. *)
Lemma select_fails_on_empty_or_zero_mass_witness :
  select_watermarked_token "m" [("a"%string, 0)] EmptyString scenario_world =
  (Err ZeroDivisionError, scenario_world).
Proof.
  rewrite (select_fails_on_empty_or_zero_mass "m" EmptyString
             [("a"%string, 0)] scenario_world).
  - rewrite scenario_registered, scenario_exp. reflexivity.
  - apply (bool_decide_unpack _). vm_compute. exact I.
  - constructor; [simpl; lra | constructor].
  - unfold mass. simpl. lra.
Defined.

(** C7 on the model registered with [gamma = 1]. *)
Lemma detect_zero_variance_raises_witness :
  detect_watermark "m" ["a"]%string all_green_world =
    (Err ZeroDivisionError, all_green_world) /\
  is_ArithmeticError ZeroDivisionError = true.
Proof.
  apply (detect_zero_variance_raises "m" all_green_model ["a"]%string
           all_green_world).
  - exact all_green_registered.
  - right. reflexivity.
  - discriminate.
Defined.

(** C9 on the scenario. *)
Lemma detect_empty_is_zero_witness :
  detect_watermark "m" [] scenario_world = (Ok 0, scenario_world).
Proof.
  apply (detect_empty_is_zero "m" scenario_model scenario_world).
  exact scenario_registered.
Defined.

(** C8 on the empty registry. *)
Lemma unknown_model_raises_KeyError_witness :
  select_watermarked_token "m" scenario_distribution EmptyString empty_world =
    (Err (KeyError "m"), empty_world) /\
  detect_watermark "m" ["a"; "b"]%string empty_world =
    (Err (KeyError "m"), empty_world) /\
  is_LookupError (KeyError "m") = true.
Proof.
  apply (unknown_model_raises_KeyError "m" EmptyString scenario_distribution
           ["a"; "b"]%string empty_world).
  reflexivity.
Defined.

(** C10, counterexample: model [m] registered through the endpoint with
    [delta = 1000] and the distribution of the scenario, which is not
    empty and has non-negative probabilities that sum to 1.  The call
    raises [OverflowError] at [math.exp(delta)]. *)
Lemma select_raises_on_large_delta :
  post_register "m" ["a"; "b"]%string "k1" (Some (1 / 2)) (Some 1000)
    empty_world = (Ok "registered"%string, overflow_world) /\
  MODEL_KEYS overflow_world !! "m"%string = Some overflow_model /\
  is_dict scenario_distribution /\
  scenario_distribution <> [] /\
  Forall (fun item : string * R => 0 <= snd item) scenario_distribution /\
  0 < mass scenario_distribution /\
  select_watermarked_token "m" scenario_distribution EmptyString
    overflow_world = (Err OverflowError, overflow_world).
Proof.
  split; [exact post_register_overflow |].
  split; [exact overflow_registered |].
  split; [exact scenario_is_dict |]. split; [discriminate |].
  split; [exact scenario_nonneg |]. split; [rewrite scenario_mass; lra |].
  apply (select_on_exp_error "m" EmptyString overflow_model);
    [exact overflow_registered |].
  apply math_exp_overflow. simpl. lra.
Qed.

(** C10 (amended) on a distribution with a red and a green token, for
    the scenario's model ([delta = 2]). *)
Lemma select_returns_a_key_in_range_witness :
  exists tok,
    select_watermarked_token "m" mixed_distribution EmptyString
      scenario_world = (Ok tok, consume_random scenario_world) /\
    In tok (keys mixed_distribution).
Proof.
  apply (select_returns_a_key_in_range "m" EmptyString scenario_model
           mixed_distribution scenario_world).
  - exact scenario_registered.
  - simpl. lra.
  - exact mixed_is_dict.
  - discriminate.
  - exact mixed_nonneg.
  - rewrite mixed_mass. lra.
Defined.

(** ** End-to-end runs on the scenario *)

Lemma digest_prefix_k1_a_b :
  int_from_bytes_big
    (firstn 8 (HMAC.hmac_sha256 (encode "k1")
                 (encode "a" ++ encode "b")%list)) =
  2986305165387357102%Z.
Proof. vm_compute. reflexivity. Qed.

(** After [a], the token [b] is green. *)
Example is_green_k1_a_b :
  _is_green (encode "k1") "a" "b" (1 / 2) = true.
Proof.
  apply is_green_iff. unfold green_u.
  rewrite digest_prefix_k1_a_b, two_pow_64. lra.
Qed.

Example count_green_a_b :
  count_green (encode "k1") (1 / 2) ["a"; "b"]%string = 1%nat.
Proof.
  unfold count_green.
  cbn [List.length seq List.filter context_at nth].
  rewrite is_green_k1_a, is_green_k1_a_b. reflexivity.
Qed.

(** With both tokens red after the empty context the two weights are equal:
    a random number of 1/4 falls in the first half and picks [a], one of 3/4
    falls in the second half and picks [b]. *)
Lemma select_scenario_at (r : R) :
  select_watermarked_token "m" scenario_distribution EmptyString
    (scenario_world_at r) =
  (Ok (if Rlt_dec (r * (1 / 2 + 1 / 2 + 0)) (1 / 2) then "a" else "b")%string,
   scenario_world_at r).
Proof.
  rewrite (select_on_nonzero_total "m" EmptyString scenario_model
             scenario_distribution (scenario_world_at r)
             scenario_registered scenario_exp scenario_is_dict).
  2: { pose proof scenario_boosted_total as H. unfold boosted_total, weight.
       rewrite H. lra. }
  unfold normalized_weights, scenario_distribution, weight. cbv zeta.
  cbn [secret gamma delta scenario_model map fst snd keys].
  rewrite is_green_k1_a, is_green_k1_b.
  unfold choose_one, random_choices, bind, random, raise, ret.
  cbn [accumulate accumulate_from List.length Nat.eqb negb last Rsum fold_right].
  replace (1 / 2 + (1 / 2 + 0)) with 1 by lra.
  replace (1 / 2 / 1) with (1 / 2) by lra.
  destruct (Rle_dec _ 0) as [Hle | _]; [exfalso; lra |].
  unfold bisect. cbn [Nat.sub bisect_loop Nat.ltb Nat.leb Nat.add].
  change ((0 + 1) / 2)%nat with 0%nat.
  cbn [nth random_seq scenario_world_at].
  destruct (Rlt_dec _ _); reflexivity.
Qed.

Example select_scenario_first :
  select_watermarked_token "m" scenario_distribution EmptyString
    (scenario_world_at (1 / 4)) = (Ok "a"%string, scenario_world_at (1 / 4)).
Proof.
  rewrite select_scenario_at. destruct (Rlt_dec _ _); [reflexivity | lra].
Qed.

Example select_scenario_second :
  select_watermarked_token "m" scenario_distribution EmptyString
    (scenario_world_at (3 / 4)) = (Ok "b"%string, scenario_world_at (3 / 4)).
Proof.
  rewrite select_scenario_at. destruct (Rlt_dec _ _); [lra | reflexivity].
Qed.

(** A stored [delta] of -1000, which [register_model] accepts: the factor
    [math.exp(delta)] is [0.0], the only token is green, its weight and
    the total are 0 and the division raises. *)
Example select_underflow :
  0 < mass [("c"%string, 1)] /\
  select_watermarked_token "m" [("c"%string, 1)] EmptyString underflow_world =
  (Err ZeroDivisionError, underflow_world).
Proof.
  split; [unfold mass; simpl; lra |].
  apply (select_on_zero_total "m" EmptyString underflow_model 0).
  - apply lookup_insert_eq.
  - apply math_exp_underflow. simpl. lra.
  - apply (bool_decide_unpack _). vm_compute. exact I.
  - discriminate.
  - unfold boosted_total, weight.
    cbn [map Rsum fold_right fst snd secret gamma underflow_model].
    rewrite is_green_k1_c. lra.
Qed.

(** * Further properties of the code *)

(** ** The oracle *)

(** X1. The green list grows with [gamma]: a token that is green after a
    context for one [gamma] is green for every larger one. *)
Theorem is_green_monotone_in_gamma
    (sec : SHA256.bytes) (prev_token token : string) (g g' : R) :
  g <= g' ->
  _is_green sec prev_token token g = true ->
  _is_green sec prev_token token g' = true.
Proof.
  intros Hle Hg. apply is_green_iff in Hg. apply is_green_iff. lra.
Qed.

(** X2. At the ends of the range the oracle is constant: no token is green
    for [gamma <= 0] and every token is green for [gamma >= 1]. *)
Theorem is_green_degenerate
    (sec : SHA256.bytes) (prev_token token : string) (g : R) :
  g <= 0 \/ 1 <= g ->
  _is_green sec prev_token token g = if Rle_dec 1 g then true else false.
Proof.
  intros Hg. pose proof (green_u_range sec prev_token token) as Hu.
  destruct (Rle_dec 1 g) as [H1 | H1].
  - apply is_green_iff. lra.
  - destruct (_is_green sec prev_token token g) eqn:E; [| reflexivity].
    apply is_green_iff in E. lra.
Qed.

(** X3. Context and candidate enter the hash only through their
    concatenation: two (context, candidate) pairs with the same
    concatenation have the same colour. *)
Theorem is_green_depends_on_concatenation
    (sec : SHA256.bytes) (prev_token token prev_token' token' : string)
    (g : R) :
  (prev_token ++ token)%string = (prev_token' ++ token')%string ->
  _is_green sec prev_token token g = _is_green sec prev_token' token' g.
Proof. intros Heq. unfold _is_green. rewrite Heq. reflexivity. Qed.

(** ** The registry *)

(** X4. Registration is last-write-wins: registering a model twice leaves
    the state that the second registration alone would leave. *)
Theorem register_model_overwrites
    (model_id : string) (v1 v2 : list string) (s1 s2 : string)
    (g1 d1 g2 d2 : R) (w : world) :
  snd (register_model model_id v2 s2 g2 d2
         (snd (register_model model_id v1 s1 g1 d1 w))) =
  snd (register_model model_id v2 s2 g2 d2 w).
Proof. cbn [register_model snd MODEL_KEYS random_seq]. now rewrite insert_insert_eq. Qed.

(** X5. The order of two registrations under different identifiers does
    not matter to the operations that look a model up: after either order
    every identifier has the same configuration, and sampling and
    detection give the same result.  (The order in which [MODEL_KEYS]
    lists its identifiers, which the checker page follows, does depend on
    the order of the registrations; it is given to [check_text] as
    [model_ids].) *)
Theorem register_model_order_irrelevant_to_lookups
    (id1 id2 : string) (v1 v2 : list string) (s1 s2 : string)
    (g1 d1 g2 d2 : R) (w : world)
    (model_id prev_token : string) (distribution : dict R)
    (tokens : list string) :
  id1 <> id2 ->
  let w12 := snd (register_model id2 v2 s2 g2 d2
                    (snd (register_model id1 v1 s1 g1 d1 w))) in
  let w21 := snd (register_model id1 v1 s1 g1 d1
                    (snd (register_model id2 v2 s2 g2 d2 w))) in
  MODEL_KEYS w12 !! model_id = MODEL_KEYS w21 !! model_id /\
  fst (select_watermarked_token model_id distribution prev_token w12) =
    fst (select_watermarked_token model_id distribution prev_token w21) /\
  fst (detect_watermark model_id tokens w12) =
    fst (detect_watermark model_id tokens w21).
Proof.
  intros Hne w12 w21.
  assert (Heq : w12 = w21).
  { subst w12 w21. cbn [register_model snd MODEL_KEYS random_seq].
    now rewrite insert_insert_ne by congruence. }
  rewrite Heq. repeat split.
Qed.

Lemma post_register_world (model_id : string) (vocab : list string)
    (secret : string) (gamma delta : option R) (w : world) :
  (exists fields,
      post_register model_id vocab secret gamma delta w =
      (Err (ValidationError fields), w)) \/
  (exists req,
      parse_RegisterRequest model_id vocab secret gamma delta = Ok req /\
      valid_config (Model (req_vocab req) (encode (req_secret req))
                      (req_gamma req) (req_delta req)) /\
      req_model_id req = model_id /\
      post_register model_id vocab secret gamma delta w =
      (Ok "registered"%string,
       World (<[model_id := Model (req_vocab req) (encode (req_secret req))
                              (req_gamma req) (req_delta req)]>
                (MODEL_KEYS w)) (random_seq w))).
Proof.
  unfold post_register, bind, lift, parse_RegisterRequest. cbv zeta.
  set (g := match gamma with Some g => g | None => 1 / 2 end).
  set (d := match delta with Some d => d | None => 2 end).
  assert (Hdef : gamma = None -> 0 <= g <= 1) by (intros ->; unfold g; lra).
  assert (Hdefd : delta = None -> 0 <= d) by (intros ->; unfold d; lra).
  destruct (Rle_dec 0 g) as [Hg0 | Hg0];
    [destruct (Rle_dec g 1) as [Hg1 | Hg1] |];
    destruct (Rle_dec 0 d) as [Hd0 | Hd0]; cbn [app];
    try (left; eexists; reflexivity).
  right. eexists. split; [reflexivity |]. split; [| split; reflexivity].
  unfold valid_config. cbn. lra.
Qed.

(** X6. The endpoint keeps the registry within the constraints of the
    schema: if every stored configuration has [0 <= gamma <= 1] and
    [delta >= 0], the same holds after any POST to [/register], accepted or
    refused. *)
Theorem post_register_keeps_registry_valid
    (model_id : string) (vocab : list string) (secret : string)
    (gamma delta : option R) (w : world) :
  valid_registry w ->
  valid_registry (snd (post_register model_id vocab secret gamma delta w)).
Proof.
  intros Hv.
  destruct (post_register_world model_id vocab secret gamma delta w)
    as [[fields ->] | (req & _ & Hvalid & _ & ->)]; [exact Hv |].
  intros id m. cbn [snd MODEL_KEYS]. rewrite lookup_insert.
  case_decide as Hid; [intros [= <-]; exact Hvalid | apply Hv].
Qed.

(** ** The detector *)

Lemma detect_registered (model_id : string) (m : model)
    (tokens : list string) (w : world) :
  MODEL_KEYS w !! model_id = Some m ->
  detect_watermark model_id tokens w =
  (match tokens with
   | [] => Ok 0
   | _ :: _ => z_score m tokens
   end, w).
Proof.
  intros Hm. unfold detect_watermark, bind, lookup_model, lift. rewrite Hm.
  destruct tokens as [| tok rest]; [reflexivity |].
  cbn [List.length Nat.eqb]. unfold z_score, rbind.
  rewrite count_loop_is_count_green.
  destruct (math_sqrt _); reflexivity.
Qed.

Lemma z_score_regular (m : model) (tokens : list string) :
  0 < gamma m < 1 -> tokens <> [] ->
  0 < sqrt (INR (List.length tokens) * gamma m * (1 - gamma m)) /\
  z_score m tokens =
  Ok ((INR (count_green (secret m) (gamma m) tokens)
       - gamma m * INR (List.length tokens))
      / sqrt (INR (List.length tokens) * gamma m * (1 - gamma m))).
Proof.
  intros [Hg0 Hg1] Hne. pose proof (INR_length_pos tokens Hne) as HT.
  assert (Hpos : 0 < INR (List.length tokens) * gamma m * (1 - gamma m)).
  { apply Rmult_lt_0_compat; [apply Rmult_lt_0_compat |]; lra. }
  pose proof (sqrt_lt_R0 _ Hpos) as Hs. split; [exact Hs |].
  unfold z_score, math_sqrt, rbind.
  destruct (Rlt_dec _ 0) as [Hneg | _]; [lra |].
  unfold py_div. destruct (Req_dec_T _ 0) as [Hz | _]; [lra | reflexivity].
Qed.

Lemma z_score_out_of_range (m : model) (tokens : list string) :
  gamma m < 0 \/ 1 < gamma m -> tokens <> [] ->
  z_score m tokens = Err ValueError.
Proof.
  intros Hg Hne. pose proof (INR_length_pos tokens Hne) as HT.
  unfold z_score, math_sqrt, rbind.
  destruct (Rlt_dec _ 0) as [_ | Hn]; [reflexivity |].
  exfalso. apply Hn.
  assert (Hprod : gamma m * (1 - gamma m) < 0) by (destruct Hg; nra).
  rewrite Rmult_assoc. nra.
Qed.

Lemma z_score_zero_variance (m : model) (tokens : list string) :
  gamma m = 0 \/ gamma m = 1 ->
  z_score m tokens = Err ZeroDivisionError.
Proof.
  intros Hg. unfold z_score, math_sqrt, rbind.
  replace (INR (List.length tokens) * gamma m * (1 - gamma m)) with 0
    by (destruct Hg as [-> | ->]; ring).
  destruct (Rlt_dec 0 0); [lra |]. rewrite sqrt_0. unfold py_div.
  destruct (Req_dec_T 0 0); [reflexivity | congruence].
Qed.

(** X7. A stored [gamma] outside [[0, 1]], which [register_model] accepts,
    makes detection on every non-empty sequence fail with [ValueError]
    (the square root of a negative number); the state is unchanged. *)
Theorem detect_gamma_out_of_range_raises
    (model_id : string) (m : model) (tokens : list string) (w : world) :
  MODEL_KEYS w !! model_id = Some m ->
  gamma m < 0 \/ 1 < gamma m ->
  tokens <> [] ->
  detect_watermark model_id tokens w = (Err ValueError, w).
Proof.
  intros Hm Hg Hne. rewrite (detect_registered model_id m) by exact Hm.
  destruct tokens as [| tok rest]; [congruence |].
  pose proof (INR_length_pos (tok :: rest) Hne) as HT.
  unfold z_score, math_sqrt, rbind.
  destruct (Rlt_dec _ 0) as [_ | Hn]; [reflexivity |].
  exfalso. apply Hn.
  assert (Hprod : gamma m * (1 - gamma m) < 0) by (destruct Hg; nra).
  rewrite Rmult_assoc. nra.
Qed.

Lemma count_green_le_length sec g (tokens : list string) :
  (count_green sec g tokens <= List.length tokens)%nat.
Proof.
  unfold count_green.
  etransitivity; [apply List.filter_length_le |]. now rewrite length_seq.
Qed.

Lemma ratio_sqrt (a b : R) :
  0 < a -> 0 < b -> a / sqrt (a * b) = sqrt (a / b).
Proof.
  intros Ha Hb.
  rewrite sqrt_mult by lra. rewrite sqrt_div by lra.
  pose proof (sqrt_lt_R0 a Ha) as Hsa. pose proof (sqrt_lt_R0 b Hb) as Hsb.
  rewrite <- (sqrt_sqrt a) at 1 by lra. field. split; lra.
Qed.

Lemma z_bounds_real (T g c : R) :
  0 < T -> 0 < g < 1 -> 0 <= c <= T ->
  - sqrt (T * g / (1 - g)) <= (c - g * T) / sqrt (T * g * (1 - g))
  <= sqrt (T * (1 - g) / g).
Proof.
  intros HT Hg Hc.
  assert (Hpos : 0 < T * g * (1 - g)).
  { apply Rmult_lt_0_compat; [apply Rmult_lt_0_compat |]; lra. }
  pose proof (sqrt_lt_R0 _ Hpos) as Hs.
  pose proof (ratio_sqrt (T * g) (1 - g) ltac:(nra) ltac:(lra)) as Hlo.
  pose proof (ratio_sqrt (T * (1 - g)) g ltac:(nra) ltac:(lra)) as Hhi.
  replace (T * (1 - g) * g) with (T * g * (1 - g)) in Hhi by ring.
  unfold Rdiv in Hlo, Hhi |- *. rewrite <- Hlo, <- Hhi.
  remember (sqrt (T * g * (1 - g))) as s eqn:Es. clear Es Hlo Hhi.
  assert (Hinv : 0 < / s) by now apply Rinv_0_lt_compat.
  split.
  - replace (- (T * g * / s)) with ((- (T * g)) * / s) by ring.
    apply Rmult_le_compat_r; lra.
  - apply Rmult_le_compat_r; nra.
Qed.

Lemma detect_nonempty (model_id : string) (m : model)
    (tokens : list string) (w : world) :
  MODEL_KEYS w !! model_id = Some m -> tokens <> [] ->
  detect_watermark model_id tokens w = (z_score m tokens, w).
Proof.
  intros Hm Hne. rewrite (detect_registered model_id m) by exact Hm.
  destruct tokens; [congruence | reflexivity].
Qed.

(** X8. For [0 < gamma < 1] a returned score lies between
    [- sqrt (T * gamma / (1 - gamma))] (no green position) and
    [sqrt (T * (1 - gamma) / gamma)] (every position green), [T] being the
    number of tokens: a short text cannot reach a high score. *)
Theorem detect_score_bounds
    (model_id : string) (m : model) (tokens : list string) (w : world)
    (z : R) :
  MODEL_KEYS w !! model_id = Some m ->
  0 < gamma m < 1 ->
  detect_watermark model_id tokens w = (Ok z, w) ->
  let T := INR (List.length tokens) in
  - sqrt (T * gamma m / (1 - gamma m)) <= z <=
  sqrt (T * (1 - gamma m) / gamma m).
Proof.
  intros Hm Hg Hdet T.
  destruct (decide (tokens = [])) as [-> | Hne].
  - rewrite (detect_registered model_id m) in Hdet by exact Hm.
    injection Hdet as <-. unfold T. cbn [List.length INR].
    unfold Rdiv. rewrite !Rmult_0_l, sqrt_0. lra.
  - rewrite (detect_nonempty model_id m) in Hdet by assumption.
    destruct (z_score_regular m tokens Hg Hne) as [_ Hz].
    rewrite Hz in Hdet. injection Hdet as <-.
    apply z_bounds_real; [now apply INR_length_pos | exact Hg |].
    split; [apply pos_INR | apply le_INR, count_green_le_length].
Qed.

(** X9. The score depends on the registry only through the secret and the
    [gamma] stored for the model: the vocabulary, [delta], the other
    entries and the random source do not matter. *)
Theorem detect_depends_on_secret_and_gamma
    (model_id : string) (m1 m2 : model) (tokens : list string)
    (w1 w2 : world) :
  MODEL_KEYS w1 !! model_id = Some m1 ->
  MODEL_KEYS w2 !! model_id = Some m2 ->
  secret m1 = secret m2 ->
  gamma m1 = gamma m2 ->
  fst (detect_watermark model_id tokens w1) =
  fst (detect_watermark model_id tokens w2).
Proof.
  intros H1 H2 Hs Hg.
  rewrite (detect_registered model_id m1), (detect_registered model_id m2)
    by assumption.
  cbn [fst]. unfold z_score. now rewrite Hs, Hg.
Qed.

Lemma random_choices_registry (population : list string) (weights : list R)
    (w : world) :
  MODEL_KEYS (snd (random_choices population weights w)) = MODEL_KEYS w.
Proof.
  unfold random_choices, raise, bind, random, ret.
  destruct (negb _); [reflexivity |].
  destruct (last _); [| reflexivity].
  destruct (Rle_dec _ 0); [reflexivity |].
  destruct (population !! _); reflexivity.
Qed.

(** X10. Sampling and detection only read the registry: after
    [select_watermarked_token] the registry is what it was, and
    [detect_watermark] leaves the whole state, random source included,
    untouched, whether they return or raise. *)
Theorem select_and_detect_are_read_only
    (model_id prev_token : string) (distribution : dict R)
    (tokens : list string) (w : world) :
  MODEL_KEYS (snd (select_watermarked_token model_id distribution prev_token w))
    = MODEL_KEYS w /\
  snd (detect_watermark model_id tokens w) = w.
Proof.
  split.
  - unfold select_watermarked_token, bind.
    pose proof (sampling_weights_pure model_id prev_token distribution w)
      as Hpure.
    destruct (sampling_weights model_id distribution prev_token w)
      as [[[toks ws] | e] w0]; cbn [snd] in Hpure; subst w0; [| reflexivity].
    unfold choose_one, bind.
    pose proof (random_choices_registry toks ws w) as Hrc.
    destruct (random_choices toks ws w) as [[picked |] w']; cbn [snd] in Hrc |- *;
      [| exact Hrc].
    unfold ret, raise. destruct (picked !! 0%nat); exact Hrc.
  - unfold detect_watermark, bind, lookup_model, lift.
    destruct (MODEL_KEYS w !! model_id) as [m |]; [| reflexivity].
    destruct (_ =? _)%nat; [reflexivity |].
    destruct (math_sqrt _); reflexivity.
Qed.

(** X11. A model registered through the endpoint can always be scored or
    fails in one way only: on a non-empty sequence detection returns a
    score when the stored [gamma] is strictly between 0 and 1 and raises
    [ZeroDivisionError] when it is 0 or 1; it raises neither [KeyError] nor
    [ValueError]. *)
Theorem detect_after_post_register
    (model_id : string) (vocab : list string) (secret : string)
    (gamma_opt delta_opt : option R) (tokens : list string) (w : world) :
  fst (post_register model_id vocab secret gamma_opt delta_opt w) =
    Ok "registered"%string ->
  tokens <> [] ->
  let w' := snd (post_register model_id vocab secret gamma_opt delta_opt w) in
  let g := match gamma_opt with Some g => g | None => 1 / 2 end in
  (0 < g < 1 /\ exists z, detect_watermark model_id tokens w' = (Ok z, w')) \/
  ((g = 0 \/ g = 1) /\
   detect_watermark model_id tokens w' = (Err ZeroDivisionError, w')).
Proof.
  intros Hok Hne w' g. subst w'.
  destruct (post_register_world model_id vocab secret gamma_opt delta_opt w)
    as [[fields Hf] | (req & Hparse & Hvalid & _ & Hpost)].
  { rewrite Hf in Hok. discriminate. }
  rewrite Hpost. cbn [snd].
  set (m := Model _ _ _ _) in *. set (w' := World _ _).
  assert (Hm : MODEL_KEYS w' !! model_id = Some m) by apply lookup_insert_eq.
  assert (Hg : gamma m = g).
  { unfold parse_RegisterRequest in Hparse. cbv zeta in Hparse. fold g in Hparse.
    destruct (_ ++ _)%list; [| discriminate]. injection Hparse as <-.
    reflexivity. }
  rewrite (detect_registered model_id m) by exact Hm.
  destruct tokens as [| tok rest]; [congruence |].
  destruct Hvalid as [[Hg0 Hg1] _]. rewrite Hg in Hg0, Hg1.
  destruct (Req_dec_T g 0) as [Hz | Hnz]; [| destruct (Req_dec_T g 1) as [Ho | Hno]].
  - right. split; [now left |].
    unfold z_score, math_sqrt, rbind. rewrite Hg, Hz.
    replace (INR (List.length (tok :: rest)) * 0 * (1 - 0)) with 0 by ring.
    destruct (Rlt_dec 0 0); [lra |]. rewrite sqrt_0. unfold py_div.
    destruct (Req_dec_T 0 0); [reflexivity | congruence].
  - right. split; [now right |].
    unfold z_score, math_sqrt, rbind. rewrite Hg, Ho.
    replace (INR (List.length (tok :: rest)) * 1 * (1 - 1)) with 0 by ring.
    destruct (Rlt_dec 0 0); [lra |]. rewrite sqrt_0. unfold py_div.
    destruct (Req_dec_T 0 0); [reflexivity | congruence].
  - left. split; [lra |].
    destruct (z_score_regular m (tok :: rest)) as [_ Hzs];
      [rewrite Hg; lra | discriminate |].
    rewrite Hzs. eauto.
Qed.

(** ** The sampler *)

(** X12. The outcomes of a call on a distribution of non-negative
    probabilities with a total mass of at most 1: [KeyError] for an unknown
    model; for a known one, [OverflowError] when the stored [delta] is 710
    or more and, when it lies between 0 and 709, [ValueError] for an empty
    distribution, [ZeroDivisionError] when the mass is zero, and otherwise
    a key of the distribution with one random number consumed.  A failed
    call changes nothing. *)
Theorem select_outcomes
    (model_id prev_token : string) (distribution : dict R) (w : world) :
  is_dict distribution ->
  Forall (fun item => 0 <= snd item) distribution ->
  mass distribution <= 1 ->
  let call := select_watermarked_token model_id distribution prev_token w in
  match MODEL_KEYS w !! model_id with
  | None => call = (Err (KeyError model_id), w)
  | Some m =>
      (710 <= delta m -> call = (Err OverflowError, w)) /\
      (0 <= delta m <= 709 ->
       (distribution = [] /\ call = (Err ValueError, w)) \/
       (distribution <> [] /\ mass distribution = 0 /\
        call = (Err ZeroDivisionError, w)) \/
       (0 < mass distribution /\
        exists tok, call = (Ok tok, consume_random w) /\
                    In tok (keys distribution)))
  end.
Proof.
  intros Hd Hp _ call. subst call.
  destruct (MODEL_KEYS w !! model_id) as [m |] eqn:Hm;
    [| now apply select_unknown].
  split.
  - intros Hbig. apply (select_on_exp_error model_id prev_token m);
      [exact Hm | now apply math_exp_overflow].
  - intros Hdelta. pose proof (math_exp_ok (delta m) Hdelta) as Ha.
    destruct (decide (distribution = [])) as [-> | Hne].
    + left. split; [reflexivity |].
      now apply (select_on_empty model_id prev_token m (exp (delta m))).
    + right.
      assert (Hmass : 0 <= mass distribution).
      { unfold mass, values. apply Rsum_nonneg. now rewrite Forall_map. }
      destruct Hmass as [Hpos | Hzero].
      * right. split; [exact Hpos |].
        apply (select_samples model_id prev_token m); try assumption.
        pose proof (boosted_total_in_range m prev_token distribution Hp Hpos).
        lra.
      * left. split; [exact Hne |]. split; [now symmetry |].
        apply (select_on_zero_total model_id prev_token m (exp (delta m)));
          try assumption.
        apply boosted_total_zero, zero_mass_all_zero; [assumption | lra].
Qed.


Lemma Rsum_scale_l (c : R) (l : list R) :
  Rsum (map (fun x => c * x) l) = c * Rsum l.
Proof. induction l as [| x l IH]; simpl; [lra | rewrite IH; lra]. Qed.

Lemma weight_uniform sec prev g a (b : bool) (distribution : dict R) :
  Forall (fun item : string * R => _is_green sec prev (fst item) g = b)
    distribution ->
  map (weight sec prev g a) distribution =
  map (fun x => (if b then a else 1) * x) (values distribution).
Proof.
  unfold values. rewrite map_map.
  induction 1 as [| item dist Hx _ IH]; [reflexivity |].
  cbn [map]. rewrite IH. f_equal. unfold weight. rewrite Hx.
  destruct b; lra.
Qed.

(** X13. When all tokens of the distribution have the same colour in the
    given context (all green, or all red), the boost cancels out: for
    every stored [delta] between 0 and 709, the weights handed to
    [random.choices] are the input probabilities divided by their total.
    (Non-negative probabilities of positive total mass at most 1.) *)
Theorem select_uniform_colour_unbiased
    (model_id prev_token : string) (m : model) (distribution : dict R)
    (b : bool) (w : world) :
  let renormalized :=
    map (fun item => snd item / mass distribution) distribution in
  MODEL_KEYS w !! model_id = Some m ->
  0 <= delta m <= 709 ->
  is_dict distribution ->
  Forall (fun item => 0 <= snd item) distribution ->
  0 < mass distribution <= 1 ->
  Forall (fun item : string * R =>
            _is_green (secret m) prev_token (fst item) (gamma m) = b)
    distribution ->
  sampling_weights model_id distribution prev_token w =
    (Ok (keys distribution, renormalized), w) /\
  select_watermarked_token model_id distribution prev_token w =
    choose_one (keys distribution) renormalized w.
Proof.
  intros renormalized Hm Hdelta Hd Hp [Hmass _] Hall. subst renormalized.
  pose proof (weight_uniform (secret m) prev_token (gamma m) (exp (delta m))
                b distribution Hall) as Hw.
  set (c := if b then exp (delta m) else 1) in *.
  assert (Hc : 0 < c) by (unfold c; destruct b; [apply exp_pos | lra]).
  assert (Ht : boosted_total (secret m) prev_token (gamma m) (exp (delta m))
                 distribution = c * mass distribution).
  { unfold boosted_total. rewrite Hw. apply Rsum_scale_l. }
  assert (Hn : normalized_weights m prev_token distribution =
               map (fun item => snd item / mass distribution) distribution).
  { unfold normalized_weights. cbv zeta.
    fold (boosted_total (secret m) prev_token (gamma m) (exp (delta m))
            distribution).
    rewrite Ht. clear Hw Ht.
    apply map_ext_Forall. eapply Forall_impl; [exact Hall |].
    intros item Hitem. cbv beta in Hitem |- *. unfold weight. rewrite Hitem.
    replace (if b then snd item * exp (delta m) else snd item)
      with (c * snd item) by (unfold c; destruct b; lra).
    field. split; lra. }
  rewrite <- Hn.
  assert (Hsw : sampling_weights model_id distribution prev_token w =
                (Ok (keys distribution,
                     normalized_weights m prev_token distribution), w))
    by now apply sampling_weights_in_range.
  split; [exact Hsw | now apply select_after_weights].
Qed.








(** *** The categorical choice *)








(** ** The checker page *)

(** *** Words *)

Lemma string_app_assoc (a b c : string) :
  ((a ++ b) ++ c)%string = (a ++ (b ++ c))%string.
Proof.
  induction a as [| x a IH]; [reflexivity |].
  change (String x ((a ++ b) ++ c) = String x (a ++ (b ++ c)))%string.
  now rewrite IH.
Qed.

Lemma prefix_app (p t : string) : String.prefix p (p ++ t) = true.
Proof.
  induction p as [| x p IH]; simpl; [now destruct t |].
  destruct (ascii_dec x x) as [_ | Hn]; [exact IH | congruence].
Qed.

Lemma whitespace_nonempty : Forall (fun p => (0 < String.length p)%nat) whitespace.
Proof. apply (bool_decide_unpack _). vm_compute. exact I. Qed.

(** A string that starts with a whitespace character is recognised. *)
Lemma ws_len_app (p t : string) :
  In p whitespace -> ws_len (p ++ t) <> 0%nat.
Proof.
  intros Hp. unfold ws_len.
  destruct (find _ whitespace) as [q |] eqn:Hfind.
  - apply find_some in Hfind as [Hq _].
    pose proof whitespace_nonempty as Hne. rewrite Forall_forall in Hne.
    specialize (Hne q). rewrite <- list_elem_of_In in Hq. specialize (Hne Hq). lia.
  - pose proof (find_none _ _ Hfind p Hp) as Hn. cbv beta in Hn.
    rewrite prefix_app in Hn. discriminate.
Qed.

Lemma snoc_split (a q cur : string) (c : ascii) :
  (cur ++ String c EmptyString)%string = (a ++ q)%string ->
  q <> EmptyString ->
  exists q', q = (q' ++ String c EmptyString)%string /\ cur = (a ++ q')%string.
Proof.
  revert cur. induction a as [| x a IH]; intros cur Heq Hq.
  - exists cur. simpl in Heq. split; [now symmetry | reflexivity].
  - destruct cur as [| y cur]; simpl in Heq.
    + injection Heq as _ Heq. destruct a; destruct q; try discriminate.
      congruence.
    + injection Heq as -> Heq. destruct (IH cur Heq Hq) as (q' & -> & ->).
      exists q'. split; reflexivity.
Qed.

(** No suffix of the word being read, followed by the rest of the input,
    starts with a whitespace character. *)
Definition word_so_far (cur s : string) : Prop :=
  forall a q, cur = (a ++ q)%string -> q <> EmptyString ->
              ws_len (q ++ s) = 0%nat.

Lemma word_so_far_empty (s : string) : word_so_far EmptyString s.
Proof.
  intros a q Heq Hq. destruct a; destruct q; try discriminate. congruence.
Qed.

Lemma word_so_far_clean (cur s : string) :
  word_so_far cur s -> ~ contains_whitespace cur.
Proof.
  intros Hinv (a & p & b & Hp & Heq).
  assert (Hq : (p ++ b)%string <> EmptyString).
  { pose proof whitespace_nonempty as Hne. rewrite Forall_forall in Hne.
    rewrite <- list_elem_of_In in Hp. specialize (Hne p Hp).
    destruct p; [simpl in Hne; lia | discriminate]. }
  pose proof (Hinv a (p ++ b)%string Heq Hq) as Hz.
  rewrite string_app_assoc in Hz.
  apply (ws_len_app p (b ++ s)%string); [exact Hp | exact Hz].
Qed.

Lemma split_from_words (s : string) : forall (skip : nat) (cur : string),
  (skip <> 0%nat -> cur = EmptyString) ->
  word_so_far cur s ->
  Forall (fun tok => tok <> EmptyString /\ ~ contains_whitespace tok)
    (split_from skip cur s).
Proof.
  induction s as [| c s IH]; intros skip cur Hskip Hinv.
  - cbn [split_from]. destruct cur as [| x cur]; cbn [flush]; constructor.
    + split; [discriminate | now apply (word_so_far_clean _ EmptyString)].
    + constructor.
  - cbn [split_from]. destruct skip as [| k].
    + destruct (ws_len (String c s)) as [| k] eqn:Hws.
      * apply IH; [congruence |].
        intros a q Heq Hq.
        destruct (snoc_split a q cur c Heq Hq) as (q' & -> & ->).
        rewrite string_app_assoc. cbn [append].
        destruct q' as [| y q'].
        -- exact Hws.
        -- apply (Hinv a (String y q')); [reflexivity | discriminate].
      * assert (Hrest : Forall (fun tok => tok <> EmptyString /\
                                   ~ contains_whitespace tok)
                          (split_from k EmptyString s)).
        { apply IH; [reflexivity | apply word_so_far_empty]. }
        destruct cur as [| x cur]; cbn [flush]; [exact Hrest |].
        constructor; [| exact Hrest].
        split; [discriminate | now apply (word_so_far_clean _ (String c s))].
    + rewrite (Hskip ltac:(lia)). apply IH; [reflexivity |].
      apply word_so_far_empty.
Qed.

(** X17. The words that [check_text] hands to the detector are never empty
    and contain no whitespace character. *)
Theorem check_text_words_are_clean (text : string) :
  Forall (fun tok => tok <> EmptyString /\ ~ contains_whitespace tok)
    (str_split (str_strip text)).
Proof.
  apply split_from_words; [congruence | apply word_so_far_empty].
Qed.

Lemma lstrip_blank (s : string) : forall skip,
  all_ws_from skip s = true -> lstrip_from skip s = EmptyString.
Proof.
  induction s as [| c s IH]; intros skip Hb; [reflexivity |].
  cbn [all_ws_from lstrip_from] in *. destruct skip as [| k]; [| now apply IH].
  destruct (ws_len (String c s)); [discriminate | now apply IH].
Qed.

Lemma blank_has_no_words (text : string) :
  is_blank text = true -> str_split (str_strip text) = [].
Proof.
  intros Hb. unfold str_strip. rewrite (lstrip_blank text 0 Hb). reflexivity.
Qed.

(** *** Surrounding whitespace *)

(** No byte after the first of a whitespace character starts one. *)
Lemma whitespace_tails :
  forallb (fun p => match p with
                    | String _ t => all_chars (fun c => negb (is_ws_start c)) t
                    | EmptyString => true
                    end) whitespace = true.
Proof. vm_compute. reflexivity. Qed.

Lemma ws_found (s : string) (k : nat) :
  ws_len s = S k ->
  exists c q, In (String c q) whitespace /\ String.length q = k /\
              String.prefix (String c q) s = true.
Proof.
  unfold ws_len. destruct (find _ whitespace) as [p |] eqn:Hfind; [| discriminate].
  apply find_some in Hfind as [Hin Hpre]. intros Hlen.
  destruct p as [| c q]; [discriminate |].
  exists c, q. cbn in Hlen. repeat split; [exact Hin | lia | exact Hpre].
Qed.

Lemma tail_clean (c : ascii) (q : string) :
  In (String c q) whitespace ->
  all_chars (fun x => negb (is_ws_start x)) q = true.
Proof.
  intros Hin. pose proof whitespace_tails as Ht.
  rewrite forallb_forall in Ht. exact (Ht _ Hin).
Qed.

Lemma ws_len_start (c : ascii) (s : string) :
  ws_len (String c s) <> 0%nat -> is_ws_start c = true.
Proof.
  intros Hne. destruct (ws_len (String c s)) as [| k] eqn:Hws; [congruence |].
  destruct (ws_found _ _ Hws) as (x & q & Hin & _ & Hpre).
  cbn [String.prefix] in Hpre. destruct (ascii_dec x c) as [-> | _]; [| discriminate].
  unfold is_ws_start. apply existsb_exists. exists (String c q).
  split; [exact Hin | apply Ascii.eqb_refl].
Qed.

Lemma not_start_not_blank (c : ascii) (s : string) :
  is_ws_start c = false -> is_blank (String c s) = false.
Proof.
  intros Hc. unfold is_blank. cbn [all_ws_from].
  destruct (ws_len (String c s)) as [| k] eqn:Hws; [reflexivity |].
  rewrite (ws_len_start c s) in Hc by congruence. discriminate.
Qed.

Lemma prefix_rstrip (q : string) : forall s,
  all_chars (fun x => negb (is_ws_start x)) q = true ->
  String.prefix q s = true -> String.prefix q (rstrip s) = true.
Proof.
  induction q as [| x q IH]; intros s Hq Hpre; [now destruct (rstrip s) |].
  cbn [all_chars] in Hq. apply andb_true_iff in Hq as [Hx Hq].
  apply negb_true_iff in Hx.
  destruct s as [| y s]; [discriminate |]. cbn [String.prefix] in Hpre.
  destruct (ascii_dec x y) as [<- | _]; [| discriminate].
  cbn [rstrip]. rewrite (not_start_not_blank x s Hx).
  cbn [String.prefix]. destruct (ascii_dec x x); [now apply IH | congruence].
Qed.

Lemma rstrip_prefix (s : string) : forall q,
  String.prefix q (rstrip s) = true -> String.prefix q s = true.
Proof.
  induction s as [| c s IH]; intros q Hpre; [exact Hpre |].
  cbn [rstrip] in Hpre. destruct q as [| x q]; [reflexivity |].
  destruct (is_blank (String c s)); [discriminate |].
  cbn [String.prefix] in Hpre |- *.
  destruct (ascii_dec x c); [now apply IH | discriminate].
Qed.

Lemma find_ext_in {A} (f g : A -> bool) (l : list A) :
  (forall x, In x l -> f x = g x) -> find f l = find g l.
Proof.
  induction l as [| x l IH]; intros Hfg; [reflexivity |].
  cbn [find]. rewrite (Hfg x) by now left.
  destruct (g x); [reflexivity |]. apply IH. intros y Hy. apply Hfg. now right.
Qed.

Lemma ws_len_rstrip (c : ascii) (s : string) :
  ws_len (String c (rstrip s)) = ws_len (String c s).
Proof.
  unfold ws_len. erewrite find_ext_in; [reflexivity |].
  intros q Hq. cbv beta. destruct q as [| x q]; [reflexivity |].
  cbn [String.prefix]. destruct (ascii_dec x c) as [-> | _]; [| reflexivity].
  destruct (String.prefix q s) eqn:Hs.
  - apply prefix_rstrip; [now apply (tail_clean c) | exact Hs].
  - destruct (String.prefix q (rstrip s)) eqn:Hr; [| reflexivity].
    apply rstrip_prefix in Hr. congruence.
Qed.

Lemma skipped_ok_prefix (q : string) : forall s,
  all_chars (fun x => negb (is_ws_start x)) q = true ->
  String.prefix q s = true -> skipped_ok (String.length q) s.
Proof.
  induction q as [| x q IH]; intros s Hq Hpre; [exact I |].
  cbn [all_chars] in Hq. apply andb_true_iff in Hq as [Hx Hq].
  apply negb_true_iff in Hx.
  destruct s as [| y s]; [discriminate |]. cbn [String.prefix] in Hpre.
  destruct (ascii_dec x y) as [<- | _]; [| discriminate].
  cbn [String.length skipped_ok]. split; [exact Hx | now apply IH].
Qed.

Lemma skipped_ok_after_ws (c : ascii) (s : string) (k : nat) :
  ws_len (String c s) = S k -> skipped_ok k s.
Proof.
  intros Hws. destruct (ws_found _ _ Hws) as (x & q & Hin & <- & Hpre).
  cbn [String.prefix] in Hpre. destruct (ascii_dec x c); [| discriminate].
  apply skipped_ok_prefix; [now apply (tail_clean x) | exact Hpre].
Qed.

Lemma blank_split (s : string) : forall skip cur,
  all_ws_from skip s = true -> split_from skip cur s = flush cur [].
Proof.
  induction s as [| c s IH]; intros skip cur Hb; [reflexivity |].
  cbn [all_ws_from split_from] in *. destruct skip as [| k]; [| now apply IH].
  destruct (ws_len (String c s)) as [| k]; [discriminate |].
  rewrite (IH k EmptyString Hb). reflexivity.
Qed.

Lemma split_rstrip (s : string) : forall skip cur,
  skipped_ok skip s ->
  split_from skip cur (rstrip s) = split_from skip cur s.
Proof.
  induction s as [| c s IH]; intros skip cur Hok; [reflexivity |].
  cbn [rstrip]. destruct skip as [| k].
  - destruct (is_blank (String c s)) eqn:Hblank.
    + symmetry. now apply blank_split.
    + cbn [split_from]. rewrite ws_len_rstrip.
      destruct (ws_len (String c s)) as [| k] eqn:Hws.
      * now apply IH.
      * f_equal. apply IH. now apply (skipped_ok_after_ws c).
  - cbn [skipped_ok] in Hok. destruct Hok as [Hc Hok].
    rewrite (not_start_not_blank c s Hc). cbn [split_from]. now apply IH.
Qed.

Lemma split_lstrip (s : string) : forall skip,
  split_from 0 EmptyString (lstrip_from skip s) =
  split_from skip EmptyString s.
Proof.
  induction s as [| c s IH]; intros skip; [now destruct skip |].
  cbn [lstrip_from]. destruct skip as [| k]; [| cbn [split_from]; apply IH].
  destruct (ws_len (String c s)) as [| k] eqn:Hws; [reflexivity |].
  cbn [split_from]. rewrite Hws. cbn [flush]. apply IH.
Qed.

Lemma split_strip (text : string) :
  str_split (str_strip text) = str_split text.
Proof.
  unfold str_split, str_strip.
  rewrite split_rstrip by exact I. apply split_lstrip.
Qed.

(** X23. The call to [strip] changes nothing: whitespace before and after
    the text never changes the words that [check_text] scores. *)
Theorem check_text_strip_is_redundant (text : string) :
  str_split (str_strip text) = str_split text.
Proof. apply split_strip. Qed.

Lemma split_from_word_pending (s : string) : forall skip cur,
  cur <> EmptyString -> split_from skip cur s <> [].
Proof.
  induction s as [| c s IH]; intros skip cur Hcur.
  - cbn [split_from]. destruct cur; [congruence | discriminate].
  - cbn [split_from]. destruct skip as [| k]; [| now apply IH].
    destruct (ws_len (String c s)).
    + apply IH. destruct cur; discriminate.
    + destruct cur; [congruence | discriminate].
Qed.

Lemma split_from_nonblank (s : string) : forall skip cur,
  all_ws_from skip s = false -> split_from skip cur s <> [].
Proof.
  induction s as [| c s IH]; intros skip cur Hb; [discriminate |].
  cbn [all_ws_from split_from] in *. destruct skip as [| k]; [| now apply IH].
  destruct (ws_len (String c s)) as [| k].
  - apply split_from_word_pending. destruct cur; discriminate.
  - specialize (IH k EmptyString Hb).
    destruct cur; cbn [flush]; [exact IH | discriminate].
Qed.

(** A text that is not blank has a word. *)
Lemma nonblank_has_words (text : string) :
  is_blank text = false -> str_split (str_strip text) <> [].
Proof.
  intros Hb. rewrite split_strip. now apply split_from_nonblank.
Qed.

(** *** The page *)

Lemma detect_regular (model_id : string) (m : model) (tokens : list string)
    (w : world) :
  MODEL_KEYS w !! model_id = Some m ->
  0 < gamma m < 1 ->
  exists z,
    detect_watermark model_id tokens w = (Ok z, w) /\
    z <= sqrt (INR (List.length tokens) * (1 - gamma m) / gamma m).
Proof.
  intros Hm Hg. rewrite (detect_registered model_id m) by exact Hm.
  destruct (decide (tokens = [])) as [-> | Hne].
  - exists 0. split; [reflexivity | apply sqrt_pos].
  - destruct (z_score_regular m tokens Hg Hne) as [_ Hz].
    destruct tokens as [| tok rest]; [congruence |].
    rewrite Hz. eexists. split; [reflexivity |].
    apply z_bounds_real; [now apply INR_length_pos | exact Hg |].
    split; [apply pos_INR | apply le_INR, count_green_le_length].
Qed.

Section WebsiteFacts.
Variable format_2f : R -> string.

Lemma check_loop_ok (tokens : list string) (w : world) :
  forall (model_ids rows : list string) (any_flagged : bool),
    Forall (fun model_id =>
              exists z, detect_watermark model_id tokens w = (Ok z, w))
      model_ids ->
    check_loop format_2f model_ids tokens rows any_flagged w =
    (Ok ((rows ++
          map (fun model_id =>
                 result_row format_2f model_id (score w tokens model_id)
                   (above_threshold (score w tokens model_id)))
            model_ids)%list,
         any_flagged ||
         existsb (fun model_id => above_threshold (score w tokens model_id))
           model_ids),
     w).
Proof.
  induction model_ids as [| model_id ids IH]; intros rows any_flagged Hall.
  - cbn [check_loop map existsb]. unfold ret.
    now rewrite app_nil_r, orb_false_r.
  - apply Forall_cons in Hall as [[z Hz] Hall].
    cbn [check_loop map existsb]. unfold bind at 1. rewrite Hz.
    rewrite IH by exact Hall.
    assert (Hscore : score w tokens model_id = z).
    { unfold score. now rewrite Hz. }
    rewrite Hscore. unfold above_threshold at 1 2.
    now rewrite <- app_assoc, orb_assoc.
Qed.

Lemma check_text_page_aux (model_ids : list string) (text : string)
    (w : world) :
  Forall (fun model_id =>
            exists z,
              detect_watermark model_id (str_split (str_strip text)) w =
              (Ok z, w))
    model_ids ->
  check_text format_2f model_ids text w =
  (Ok (html_result
         (if existsb (fun model_id =>
                        above_threshold
                          (score w (str_split (str_strip text)) model_id))
               model_ids
          then verdict_flagged else verdict_clean)
         (String.concat EmptyString
            (map (fun model_id =>
                    result_row format_2f model_id
                      (score w (str_split (str_strip text)) model_id)
                      (above_threshold
                         (score w (str_split (str_strip text)) model_id)))
               model_ids))),
   w).
Proof.
  intros Hall. unfold check_text, bind.
  rewrite check_loop_ok by exact Hall. reflexivity.
Qed.

(** X18. When no detection fails, the page shows one row per model, in the
    order of iteration, with the score of that model, and its verdict is
    the red one exactly when some score exceeds 4; the state is
    unchanged. *)
Theorem check_text_page (model_ids : list string) (text : string) (w : world) :
  let tokens := str_split (str_strip text) in
  Forall (fun model_id =>
            exists z, detect_watermark model_id tokens w = (Ok z, w))
    model_ids ->
  check_text format_2f model_ids text w =
  (Ok (html_result
         (if existsb (fun model_id =>
                        above_threshold (score w tokens model_id)) model_ids
          then verdict_flagged else verdict_clean)
         (String.concat EmptyString
            (map (fun model_id =>
                    result_row format_2f model_id (score w tokens model_id)
                      (above_threshold (score w tokens model_id)))
               model_ids))),
   w).
Proof.
  intros tokens Hall. subst tokens. now apply check_text_page_aux.
Qed.

Lemma registered_ids (model_ids : list string) (w : world) :
  iterates_registry model_ids w ->
  Forall (fun model_id => is_Some (MODEL_KEYS w !! model_id)) model_ids.
Proof. intros [_ Hiff]. apply Forall_forall. intros id Hid. now apply Hiff. Qed.

(** X19. A text without words (empty, or whitespace only) is never
    flagged and never makes the page fail, whatever is registered: every
    model gets the score 0.0 and the verdict is the clean one. *)
Theorem check_text_blank (model_ids : list string) (text : string) (w : world) :
  iterates_registry model_ids w ->
  is_blank text = true ->
  check_text format_2f model_ids text w =
  (Ok (html_result verdict_clean
         (String.concat EmptyString
            (map (fun model_id => result_row format_2f model_id 0 false)
               model_ids))),
   w).
Proof.
  intros Hids Hblank. pose proof (registered_ids model_ids w Hids) as Hreg.
  assert (Hzero : Forall (fun model_id =>
                            detect_watermark model_id [] w = (Ok 0, w))
                    model_ids).
  { eapply Forall_impl; [exact Hreg |]. intros id [m Hm].
    now rewrite (detect_registered id m). }
  unfold check_text, bind. rewrite (blank_has_no_words text Hblank).
  rewrite check_loop_ok.
  2: { eapply Forall_impl; [exact Hzero |]. intros id Hid. now exists 0. }
  cbn [app orb].
  assert (Hrows : map (fun model_id =>
                         result_row format_2f model_id (score w [] model_id)
                           (above_threshold (score w [] model_id))) model_ids =
                  map (fun model_id => result_row format_2f model_id 0 false)
                    model_ids).
  { apply map_ext_Forall. eapply Forall_impl; [exact Hzero |].
    intros id Hid. cbv beta. unfold score. rewrite Hid. cbn [fst].
    unfold above_threshold. destruct (Rlt_dec 4 0); [lra | reflexivity]. }
  assert (Hany : existsb (fun model_id => above_threshold (score w [] model_id))
                   model_ids = false).
  { apply not_true_is_false. intros Hex. apply existsb_exists in Hex
      as (id & Hin & Hab).
    rewrite Forall_forall in Hzero. apply list_elem_of_In in Hin.
    specialize (Hzero id Hin).
    unfold score in Hab. rewrite Hzero in Hab. cbn [fst] in Hab.
    unfold above_threshold in Hab. destruct (Rlt_dec 4 0); [lra | discriminate]. }
  rewrite Hrows, Hany. reflexivity.
Qed.

Lemma check_loop_degenerate (tokens : list string) (w : world) :
  tokens <> [] ->
  forall (model_ids rows : list string) (any_flagged : bool),
    Forall (fun model_id => is_Some (MODEL_KEYS w !! model_id)) model_ids ->
    Exists (fun model_id =>
              exists m, MODEL_KEYS w !! model_id = Some m /\
                        (gamma m <= 0 \/ 1 <= gamma m)) model_ids ->
    exists e,
      check_loop format_2f model_ids tokens rows any_flagged w = (Err e, w) /\
      (e = ZeroDivisionError \/ e = ValueError).
Proof.
  intros Hne. induction model_ids as [| model_id ids IH];
    intros rows any_flagged Hreg Hex; [inversion Hex |].
  apply Forall_cons in Hreg as [[m Hm] Hreg].
  cbn [check_loop]. unfold bind at 1.
  rewrite (detect_nonempty model_id m) by assumption.
  destruct (Rle_dec (gamma m) 0) as [Hg0 | Hg0];
    [| destruct (Rle_dec 1 (gamma m)) as [Hg1 | Hg1]].
  - destruct Hg0 as [Hlt | Heq].
    + rewrite z_score_out_of_range by (try assumption; now left). eauto.
    + rewrite z_score_zero_variance by now left. eauto.
  - destruct Hg1 as [Hlt | Heq].
    + rewrite z_score_out_of_range by (try assumption; now right). eauto.
    + rewrite z_score_zero_variance by now right. eauto.
  - destruct (z_score_regular m tokens ltac:(lra) Hne) as [_ ->].
    apply IH; [exact Hreg |].
    apply Exists_cons in Hex as [(m' & Hm' & Hdeg) | Hex]; [| exact Hex].
    rewrite Hm in Hm'. injection Hm' as <-. lra.
Qed.

(** X20. One degenerate model breaks the page for every text that is not
    blank: if some registered model has a [gamma] that is not strictly
    between 0 and 1, the check raises [ZeroDivisionError] or [ValueError]
    instead of returning a page, in whatever order the models are
    visited. *)
Theorem check_text_fails_on_degenerate_model
    (model_ids : list string) (text : string) (w : world)
    (model_id : string) (m : model) :
  iterates_registry model_ids w ->
  is_blank text = false ->
  MODEL_KEYS w !! model_id = Some m ->
  gamma m <= 0 \/ 1 <= gamma m ->
  exists e,
    check_text format_2f model_ids text w = (Err e, w) /\
    (e = ZeroDivisionError \/ e = ValueError).
Proof.
  intros Hids Hnb Hm Hdeg. pose proof (nonblank_has_words text Hnb) as Hne.
  pose proof (registered_ids model_ids w Hids) as Hreg.
  destruct Hids as [_ Hiff].
  destruct (check_loop_degenerate (str_split (str_strip text)) w Hne
              model_ids [] false Hreg) as (e & Hloop & He).
  { apply Exists_exists. exists model_id. split; [| eauto].
    apply Hiff. now exists m. }
  exists e. split; [| exact He].
  unfold check_text, bind. rewrite Hloop. reflexivity.
Qed.

(** X21. Short texts are never flagged.  If every registered model has
    [0 < gamma < 1] and the text has [T] words with
    [T * (1 - gamma) <= 15 * gamma] for each of them (at most 15 words for
    [gamma = 0.5]), every score is at most [sqrt 15], which is below the
    threshold 4 by more than the rounding of the floats, and the page is
    returned with the clean verdict. *)
Theorem check_text_short_text_is_clean
    (model_ids : list string) (text : string) (w : world) :
  let tokens := str_split (str_strip text) in
  iterates_registry model_ids w ->
  (forall model_id m,
      MODEL_KEYS w !! model_id = Some m ->
      0 < gamma m < 1 /\
      INR (List.length tokens) * (1 - gamma m) <= 15 * gamma m) ->
  exists rows,
    check_text format_2f model_ids text w =
    (Ok (html_result verdict_clean rows), w).
Proof.
  intros tokens Hids Hshort.
  pose proof (registered_ids model_ids w Hids) as Hreg.
  assert (Hlow : Forall (fun model_id =>
                           exists z, detect_watermark model_id tokens w = (Ok z, w)
                                     /\ z <= 4) model_ids).
  { eapply Forall_impl; [exact Hreg |]. intros id [m Hm].
    destruct (Hshort id m Hm) as [Hg Hle].
    destruct (detect_regular id m tokens w Hm Hg) as (z & Hz & Hbound).
    exists z. split; [exact Hz |].
    etransitivity; [exact Hbound |].
    replace 4 with (sqrt (4 * 4)) by (apply sqrt_square; lra).
    apply sqrt_le_1_alt.
    apply (Rmult_le_reg_r (gamma m)); [lra |].
    unfold Rdiv. rewrite Rmult_assoc, Rinv_l by lra. lra. }
  eexists. rewrite check_text_page_aux.
  - fold tokens.
    replace (existsb _ model_ids) with false; [reflexivity |].
    symmetry. apply not_true_is_false. intros Hex.
    apply existsb_exists in Hex as (id & Hin & Hab).
    rewrite Forall_forall in Hlow. apply list_elem_of_In in Hin.
    destruct (Hlow id Hin) as (z & Hz & Hz4).
    unfold score in Hab. rewrite Hz in Hab. cbn [fst] in Hab.
    unfold above_threshold in Hab. destruct (Rlt_dec 4 z); [lra | discriminate].
  - fold tokens. eapply Forall_impl; [exact Hlow |].
    intros id (z & Hz & _). eauto.
Qed.

End WebsiteFacts.

(** ** What the operations read *)

Lemma choose_one_next_random (tokens : list string) (weights : list R)
    (w1 w2 : world) :
  random_seq w1 0 = random_seq w2 0 ->
  fst (choose_one tokens weights w1) = fst (choose_one tokens weights w2).
Proof.
  intros Hr. unfold choose_one, random_choices, bind, random, raise, ret.
  destruct (negb _); [reflexivity |].
  destruct (last _); [| reflexivity].
  destruct (Rle_dec _ 0); [reflexivity |].
  rewrite Hr. destruct (tokens !! _); [| reflexivity].
  cbn. reflexivity.
Qed.

(** X22. The vocabulary is stored but never read, and a call draws on
    nothing else: the result of [select_watermarked_token] is determined
    by the secret, [gamma] and [delta] stored for the model, the arguments
    and the next output of the random generator. *)
Theorem select_depends_on_config_and_next_random
    (model_id prev_token : string) (m1 m2 : model) (distribution : dict R)
    (w1 w2 : world) :
  MODEL_KEYS w1 !! model_id = Some m1 ->
  MODEL_KEYS w2 !! model_id = Some m2 ->
  secret m1 = secret m2 ->
  gamma m1 = gamma m2 ->
  delta m1 = delta m2 ->
  random_seq w1 0 = random_seq w2 0 ->
  fst (select_watermarked_token model_id distribution prev_token w1) =
  fst (select_watermarked_token model_id distribution prev_token w2).
Proof.
  intros H1 H2 Hs Hg Hd Hr.
  pose proof (sampling_weights_config model_id prev_token m1 m2 distribution
                w1 w2 H1 H2 Hs Hg Hd) as Hsame.
  pose proof (sampling_weights_pure model_id prev_token distribution w1) as P1.
  pose proof (sampling_weights_pure model_id prev_token distribution w2) as P2.
  unfold select_watermarked_token, bind.
  destruct (sampling_weights model_id distribution prev_token w1) as [r1 w1'].
  destruct (sampling_weights model_id distribution prev_token w2) as [r2 w2'].
  cbn [fst snd] in Hsame, P1, P2. subst r2 w1' w2'.
  destruct r1 as [[toks ws] | e]; [| reflexivity].
  now apply choose_one_next_random.
Qed.

(** * Instances on concrete states *)

(** One green position out of two is what chance predicts for
    [gamma = 0.5]: the score of the sequence [a b] is 0. *)
Example detect_a_b :
  detect_watermark "m" ["a"; "b"]%string scenario_world = (Ok 0, scenario_world).
Proof.
  rewrite (detect_nonempty "m" scenario_model) by
    (try exact scenario_registered; discriminate).
  destruct (z_score_regular scenario_model ["a"; "b"]%string) as [_ ->];
    [simpl; lra | discriminate |].
  cbn [secret gamma scenario_model List.length].
  rewrite count_green_a_b. do 2 f_equal.
  change (INR 1) with 1. change (INR 2) with (1 + 1).
  unfold Rdiv. lra.
Qed.

Lemma scenario_iterates : iterates_registry ["m"%string] scenario_world.
Proof.
  split; [apply (bool_decide_unpack _); vm_compute; exact I |].
  intros id. unfold scenario_world. cbn [register_model snd MODEL_KEYS empty_world].
  rewrite lookup_insert_is_Some, list_elem_of_singleton.
  split; [intros ->; now left | intros [-> | [_ [x Hx]]]; [reflexivity |]].
  rewrite lookup_empty in Hx. discriminate.
Qed.

Lemma all_green_iterates : iterates_registry ["m"%string] all_green_world.
Proof.
  split; [apply (bool_decide_unpack _); vm_compute; exact I |].
  intros id. unfold all_green_world. cbn [register_model snd MODEL_KEYS empty_world].
  rewrite lookup_insert_is_Some, list_elem_of_singleton.
  split; [intros ->; now left | intros [-> | [_ [x Hx]]]; [reflexivity |]].
  rewrite lookup_empty in Hx. discriminate.
Qed.

Lemma words_a_b : str_split (str_strip "a b") = ["a"; "b"]%string.
Proof. vm_compute. reflexivity. Qed.

Lemma out_of_range_registered :
  MODEL_KEYS out_of_range_world !! "m"%string = Some out_of_range_model.
Proof. apply lookup_insert_eq. Qed.

(** X1 on the scenario: [b] after [a] is green for 0.5, hence for 0.75. *)
Lemma is_green_monotone_in_gamma_witness :
  _is_green (encode "k1") "a" "b" (3 / 4) = true.
Proof.
  apply (is_green_monotone_in_gamma (encode "k1") "a" "b" (1 / 2) (3 / 4)).
  - lra.
  - exact is_green_k1_a_b.
Defined.

(** X2 for [gamma = 1]. *)
Lemma is_green_degenerate_witness :
  _is_green (encode "k1") EmptyString "a" 1 =
  if Rle_dec 1 1 then true else false.
Proof.
  apply (is_green_degenerate (encode "k1") EmptyString "a" 1).
  right. lra.
Defined.

(** X3: [a] before [bc] and [ab] before [c]. *)
Lemma is_green_depends_on_concatenation_witness :
  _is_green (encode "k1") "a" "bc" (1 / 2) =
  _is_green (encode "k1") "ab" "c" (1 / 2).
Proof.
  apply (is_green_depends_on_concatenation (encode "k1") "a" "bc" "ab" "c").
  reflexivity.
Defined.

(** X5 for two identifiers: model [m] is found in both orders. *)
Lemma register_model_order_irrelevant_to_lookups_witness :
  let w12 := snd (register_model "n" [] "k2" (1 / 4) 1
                    (snd (register_model "m" [] "k1" (1 / 2) 2 empty_world))) in
  let w21 := snd (register_model "m" [] "k1" (1 / 2) 2
                    (snd (register_model "n" [] "k2" (1 / 4) 1 empty_world))) in
  MODEL_KEYS w12 !! "m"%string = MODEL_KEYS w21 !! "m"%string /\
  fst (select_watermarked_token "m" mixed_distribution EmptyString w12) =
    fst (select_watermarked_token "m" mixed_distribution EmptyString w21) /\
  fst (detect_watermark "m" ["a"; "b"]%string w12) =
    fst (detect_watermark "m" ["a"; "b"]%string w21).
Proof.
  apply (register_model_order_irrelevant_to_lookups "m" "n" [] [] "k1" "k2").
  discriminate.
Defined.

Lemma empty_world_valid : valid_registry empty_world.
Proof. intros id m Hm. cbn in Hm. rewrite lookup_empty in Hm. discriminate. Qed.

(** X6 on the empty registry. *)
Lemma post_register_keeps_registry_valid_witness :
  valid_registry
    (snd (post_register "m" ["a"; "b"]%string "k1" (Some (1 / 2)) None
            empty_world)).
Proof.
  apply (post_register_keeps_registry_valid "m" ["a"; "b"]%string "k1"
           (Some (1 / 2)) None empty_world).
  exact empty_world_valid.
Defined.

(** X7 on the model registered with [gamma = 1.5]. *)
Lemma detect_gamma_out_of_range_raises_witness :
  detect_watermark "m" ["a"]%string out_of_range_world =
  (Err ValueError, out_of_range_world).
Proof.
  apply (detect_gamma_out_of_range_raises "m" out_of_range_model ["a"]%string
           out_of_range_world).
  - exact out_of_range_registered.
  - right. simpl. lra.
  - discriminate.
Defined.

(** X8 on the scenario: the score 0 of [a b] is within the bounds for
    two tokens. *)
Lemma detect_score_bounds_witness :
  - sqrt (INR 2 * (1 / 2) / (1 - 1 / 2)) <= 0 <=
  sqrt (INR 2 * (1 - 1 / 2) / (1 / 2)).
Proof.
  apply (detect_score_bounds "m" scenario_model ["a"; "b"]%string
           scenario_world 0).
  - exact scenario_registered.
  - simpl. lra.
  - exact detect_a_b.
Defined.

(** X9: the scenario with [delta = 2] and with [delta = 0] score alike. *)
Lemma detect_depends_on_secret_and_gamma_witness :
  fst (detect_watermark "m" ["a"; "b"]%string scenario_world) =
  fst (detect_watermark "m" ["a"; "b"]%string unbiased_world).
Proof.
  apply (detect_depends_on_secret_and_gamma "m" scenario_model unbiased_model).
  - exact scenario_registered.
  - exact unbiased_registered.
  - reflexivity.
  - reflexivity.
Defined.

(** X11 on the scenario registered through the endpoint. *)
Lemma detect_after_post_register_witness :
  let w' := snd (post_register "m" ["a"; "b"]%string "k1" (Some (1 / 2))
                   (Some 2) empty_world) in
  (0 < 1 / 2 < 1 /\
   exists z, detect_watermark "m" ["a"]%string w' = (Ok z, w')) \/
  ((1 / 2 = 0 \/ 1 / 2 = 1) /\
   detect_watermark "m" ["a"]%string w' = (Err ZeroDivisionError, w')).
Proof.
  apply (detect_after_post_register "m" ["a"; "b"]%string "k1" (Some (1 / 2))
           (Some 2) ["a"]%string empty_world).
  - rewrite post_register_scenario. reflexivity.
  - discriminate.
Defined.

(** X12 on the scenario's model and a distribution with a red and a green
    token. *)
Lemma select_outcomes_witness :
  let call := select_watermarked_token "m" mixed_distribution EmptyString
                scenario_world in
  match MODEL_KEYS scenario_world !! "m"%string with
  | None => call = (Err (KeyError "m"), scenario_world)
  | Some m =>
      (710 <= delta m -> call = (Err OverflowError, scenario_world)) /\
      (0 <= delta m <= 709 ->
       (mixed_distribution = [] /\ call = (Err ValueError, scenario_world)) \/
       (mixed_distribution <> [] /\ mass mixed_distribution = 0 /\
        call = (Err ZeroDivisionError, scenario_world)) \/
       (0 < mass mixed_distribution /\
        exists tok, call = (Ok tok, consume_random scenario_world) /\
                    In tok (keys mixed_distribution)))
  end.
Proof.
  apply (select_outcomes "m" EmptyString mixed_distribution scenario_world).
  - exact mixed_is_dict.
  - exact mixed_nonneg.
  - rewrite mixed_mass. lra.
Defined.

(** X13 on two green tokens of total mass 1/2, for the scenario's model
    ([delta = 2]): the factor [exp 2] cancels and the weights are
    [1/8 / (1/2)] and [3/8 / (1/2)]. *)
Lemma select_uniform_colour_unbiased_witness :
  mass green_distribution = 1 / 2 /\
  let renormalized :=
    map (fun item => snd item / mass green_distribution) green_distribution in
  sampling_weights "m" green_distribution EmptyString scenario_world =
    (Ok (keys green_distribution, renormalized), scenario_world) /\
  select_watermarked_token "m" green_distribution EmptyString scenario_world =
    choose_one (keys green_distribution) renormalized scenario_world.
Proof.
  split; [exact green_mass_half |].
  apply (select_uniform_colour_unbiased "m" EmptyString scenario_model
           green_distribution true scenario_world).
  - exact scenario_registered.
  - simpl. lra.
  - exact green_is_dict.
  - exact green_nonneg.
  - rewrite green_mass_half. lra.
  - exact green_all_green.
Defined.




Lemma scenario_detects_a_b :
  Forall (fun model_id =>
            exists z,
              detect_watermark model_id (str_split (str_strip "a b"))
                scenario_world = (Ok z, scenario_world))
    ["m"%string].
Proof.
  constructor; [| constructor]. rewrite words_a_b. exists 0. exact detect_a_b.
Qed.

(** X18 on the scenario and the text [a b]. *)
Lemma check_text_page_witness :
  let tokens := str_split (str_strip "a b") in
  check_text constant_format ["m"%string] "a b" scenario_world =
  (Ok (html_result
         (if existsb (fun model_id =>
                        above_threshold (score scenario_world tokens model_id))
               ["m"%string]
          then verdict_flagged else verdict_clean)
         (String.concat EmptyString
            (map (fun model_id =>
                    result_row constant_format model_id
                      (score scenario_world tokens model_id)
                      (above_threshold (score scenario_world tokens model_id)))
               ["m"%string]))),
   scenario_world).
Proof.
  apply (check_text_page constant_format ["m"%string] "a b" scenario_world).
  exact scenario_detects_a_b.
Defined.

(** X19 on the scenario and a text of one space. *)
Lemma check_text_blank_witness :
  check_text constant_format ["m"%string] " " scenario_world =
  (Ok (html_result verdict_clean
         (String.concat EmptyString
            (map (fun model_id => result_row constant_format model_id 0 false)
               ["m"%string]))),
   scenario_world).
Proof.
  apply (check_text_blank constant_format ["m"%string] " " scenario_world).
  - exact scenario_iterates.
  - vm_compute. reflexivity.
Defined.

(** X20 on the model registered with [gamma = 1]. *)
Lemma check_text_fails_on_degenerate_model_witness :
  exists e,
    check_text constant_format ["m"%string] "a b" all_green_world =
      (Err e, all_green_world) /\
    (e = ZeroDivisionError \/ e = ValueError).
Proof.
  apply (check_text_fails_on_degenerate_model constant_format ["m"%string]
           "a b" all_green_world "m" all_green_model).
  - exact all_green_iterates.
  - vm_compute. reflexivity.
  - exact all_green_registered.
  - right. simpl. lra.
Defined.

(** X21 on the scenario: two words, [gamma = 0.5]. *)
Lemma check_text_short_text_is_clean_witness :
  exists rows,
    check_text constant_format ["m"%string] "a b" scenario_world =
    (Ok (html_result verdict_clean rows), scenario_world).
Proof.
  apply (check_text_short_text_is_clean constant_format ["m"%string] "a b"
           scenario_world).
  - exact scenario_iterates.
  - intros id m Hm. rewrite words_a_b.
    unfold scenario_world in Hm.
    cbn [register_model snd MODEL_KEYS empty_world] in Hm.
    apply lookup_insert_Some in Hm as [[_ <-] | [_ Hm]].
    + cbn [gamma List.length INR]. lra.
    + rewrite lookup_empty in Hm. discriminate.
Defined.

Lemma no_vocab_registered :
  MODEL_KEYS no_vocab_world !! "m"%string = Some no_vocab_model.
Proof. apply lookup_insert_eq. Qed.

(** X22: the scenario with and without its vocabulary. *)
Lemma select_depends_on_config_and_next_random_witness :
  fst (select_watermarked_token "m" scenario_distribution EmptyString
         scenario_world) =
  fst (select_watermarked_token "m" scenario_distribution EmptyString
         no_vocab_world).
Proof.
  apply (select_depends_on_config_and_next_random "m" EmptyString
           scenario_model no_vocab_model).
  - exact scenario_registered.
  - exact no_vocab_registered.
  - reflexivity.
  - reflexivity.
  - reflexivity.
  - reflexivity.
Defined.
